(** * flextrain: variational autoencoder and conditioned diffusion wrapper

    A shallow embedding of
    - [src/flextrain/autoencoder/vae.py]
      (class [AutoencoderConvolutionalVariational]) and
    - [scripts/diffusion/06_mnist_noising.py]
      (class [DiffusionModelUNetConditioned]).

    Conventions of the embedding.
    - Tensor elements are idealised as real numbers ([R]); rounding, NaN
      and infinities of the floating point formats are not represented.
    - A Python exception is a value of [exn]; a computation that may raise
      returns a [result].
    - The random number generator is an explicit stream of draws that is
      threaded through every computation that samples.
    - Networks handed to the classes from outside ([encoder], [decoder],
      [base_model], the reconstruction losses of the tensor library, the
      loss callback of [loss_function_v2]) are arbitrary fallible
      functions. *)

From Stdlib Require Import Reals Lra.
From stdpp Require Import gmap strings list fin_maps.

Set Default Proof Using "Type".

(** ** Exceptions and results *)

Inductive exn : Type :=
  | AssertionError (msg : option string)
  | NotImplementedError (msg : string)
  | KeyError (key : string)
  | ValueError
  | TypeError
  | IndexError
  | RuntimeError.

Inductive result (A : Type) : Type :=
  | Ok (a : A)
  | Raise (e : exn).
Arguments Ok {A} a.
Arguments Raise {A} e.

Definition rbind {A B} (r : result A) (k : A -> result B) : result B :=
  match r with
  | Ok a => k a
  | Raise e => Raise e
  end.

Definition is_ok {A} (r : result A) : bool :=
  match r with Ok _ => true | Raise _ => false end.

#[global] Instance result_ret : MRet result := @Ok.
#[global] Instance result_bind : MBind result := fun A B k r => rbind r k.
#[global] Instance result_fmap : FMap result :=
  fun A B f r => match r with Ok a => Ok (f a) | Raise e => Raise e end.

(** ** Tensors

    A tensor is its shape together with its elements in row-major order.
    [numel] is computed from the shape, as the library does. *)

Record Tensor : Type := mkTensor {
  shape : list nat;
  data : list R
}.

Definition prod_list (s : list nat) : nat := foldr Nat.mul 1 s.

Definition numel (t : Tensor) : nat := prod_list (shape t).

(** The elements of a tensor fill its shape exactly. *)
Definition wf (t : Tensor) : Prop := length (data t) = numel t.

Definition shape_eqb (s1 s2 : list nat) : bool := bool_decide (s1 = s2).

(** [chunks k n d]: the first [n] consecutive blocks of [k] elements. *)
Fixpoint chunks (k n : nat) (d : list R) : list (list R) :=
  match n with
  | 0 => []
  | S n' => take k d :: chunks k n' (drop k d)
  end.

(** [t.view(s)]: same elements under a new shape of the same size. *)
Definition view (t : Tensor) (s : list nat) : result Tensor :=
  if numel t =? prod_list s
  then Ok {| shape := s; data := data t |}
  else Raise RuntimeError.

(** [torch.flatten(t, 1)]: all dimensions from index 1 on are merged. *)
Definition flatten1 (t : Tensor) : result Tensor :=
  match shape t with
  | n :: d :: rest => Ok {| shape := [n; prod_list (d :: rest)]; data := data t |}
  | _ => Raise IndexError
  end.

(** Elementwise unary operations and operations with a Python scalar. *)
Definition tmap (f : R -> R) (t : Tensor) : Tensor :=
  {| shape := shape t; data := map f (data t) |}.

Definition tensor_exp : Tensor -> Tensor := tmap exp.
Definition tensor_pow2 : Tensor -> Tensor := tmap (fun v => (v ^ 2)%R).
Definition scalar_add (c : R) : Tensor -> Tensor := tmap (fun v => (c + v)%R).
Definition scalar_mul (c : R) : Tensor -> Tensor := tmap (fun v => (c * v)%R).
Definition mul_scalar (t : Tensor) (c : R) : Tensor := tmap (fun v => (v * c)%R) t.

(** *** Broadcasting of binary elementwise operations *)

Definition pad_shape (r : nat) (s : list nat) : list nat :=
  replicate (r - length s) 1 ++ s.

Fixpoint broadcast_dims (s1 s2 : list nat) : option (list nat) :=
  match s1, s2 with
  | [], [] => Some []
  | a :: s1', b :: s2' =>
      match broadcast_dims s1' s2' with
      | None => None
      | Some r =>
          if a =? b then Some (a :: r)
          else if a =? 1 then Some (b :: r)
          else if b =? 1 then Some (a :: r)
          else None
      end
  | _, _ => None
  end.

Definition broadcast_shapes (s1 s2 : list nat) : option (list nat) :=
  let r := length s1 `max` length s2 in
  broadcast_dims (pad_shape r s1) (pad_shape r s2).

(** [expand_data src tgt d]: the elements [d] of a tensor of shape [src]
    repeated along every dimension where [src] has size 1 and [tgt] does
    not; [src] and [tgt] have the same rank. *)
Fixpoint expand_data (src tgt : list nat) (d : list R) : list R :=
  match src, tgt with
  | ds :: src', dt :: tgt' =>
      if ds =? dt
      then concat (map (expand_data src' tgt') (chunks (prod_list src') ds d))
      else concat (replicate dt (expand_data src' tgt' d))
  | _, _ => d
  end.

Definition binop (f : R -> R -> R) (a b : Tensor) : result Tensor :=
  match broadcast_shapes (shape a) (shape b) with
  | None => Raise RuntimeError
  | Some s =>
      let r := length s in
      Ok {| shape := s;
            data := zip_with f (expand_data (pad_shape r (shape a)) s (data a))
                               (expand_data (pad_shape r (shape b)) s (data b)) |}
  end.

Definition tensor_add : Tensor -> Tensor -> result Tensor := binop Rplus.
Definition tensor_sub : Tensor -> Tensor -> result Tensor := binop Rminus.
Definition tensor_mul : Tensor -> Tensor -> result Tensor := binop Rmult.

(** [t.mean(dim=1)]: the mean over the second dimension.  In a block of
    one batch entry the element at position [j] of dimension 1 and offset
    [p] of the remaining dimensions sits at index [j * inner + p]. *)
Definition sum_R (l : list R) : R := foldr Rplus 0%R l.

(** The mean of a list of reals.  For the empty list the library divides
    zero by zero and yields the float nan, which has no counterpart in
    [R]; here the quotient is [0 / 0], a real number without meaning.
    Properties that speak of the value of a mean are therefore stated
    for non-empty lists only. *)
Definition mean_R (l : list R) : R := (sum_R l / INR (length l))%R.

Definition mean_dim1 (t : Tensor) : result Tensor :=
  match shape t with
  | n :: d :: rest =>
      let inner := prod_list rest in
      Ok {| shape := n :: rest;
            data := concat (map (fun blk =>
                        map (fun p => mean_R (map (fun j => nth (j * inner + p) blk 0%R) (seq 0 d)))
                            (seq 0 inner))
                      (chunks (d * inner) n (data t))) |}
  | _ => Raise IndexError
  end.

(** [torch.cat([a, b], dim=1)].  A one-dimensional empty tensor (shape
    [[0]]) is skipped by the library; the remaining tensors need at least
    two dimensions and equal sizes everywhere but at index 1. *)
Definition is_legacy_empty (t : Tensor) : bool := shape_eqb (shape t) [0].

Definition check_dim1 (t : Tensor) : result Tensor :=
  match shape t with
  | _ :: _ :: _ => Ok t
  | _ => Raise IndexError
  end.

Definition cat1 (a b : Tensor) : result Tensor :=
  if is_legacy_empty a
  then (if is_legacy_empty b then Ok {| shape := [0]; data := [] |} else check_dim1 b)
  else if is_legacy_empty b then check_dim1 a
  else
    match shape a, shape b with
    | n :: ca :: ra, m :: cb :: rb =>
        if (n =? m) && shape_eqb ra rb
        then
          let ka := ca * prod_list ra in
          let kb := cb * prod_list rb in
          Ok {| shape := n :: (ca + cb) :: ra;
                data := concat (zip_with app (chunks ka n (data a)) (chunks kb n (data b))) |}
        else Raise RuntimeError
    | _ :: _ :: _, _ => Raise RuntimeError
    | _, _ => Raise IndexError
    end.

(** ** State and exception monad *)

Definition SE (S A : Type) : Type := S -> result A * S.

Definition se_ret {S A} (a : A) : SE S A := fun s => (Ok a, s).

Definition se_bind {S A B} (c : SE S A) (k : A -> SE S B) : SE S B :=
  fun s =>
    match c s with
    | (Ok a, s') => k a s'
    | (Raise e, s') => (Raise e, s')
    end.

Definition se_raise {S A} (e : exn) : SE S A := fun s => (Raise e, s).

Definition lift_result {S A} (r : result A) : SE S A := fun s => (r, s).

#[global] Instance se_mret {S} : MRet (SE S) := @se_ret S.
#[global] Instance se_mbind {S} : MBind (SE S) := fun A B k c => se_bind c k.

(** ** Random number generator

    The generator is the stream of the numbers it is going to hand out;
    drawing a tensor takes as many numbers as the tensor has elements. *)

Definition rng : Type := nat -> R.

Definition advance (k : nat) (g : rng) : rng := fun i => g (i + k).

Definition draws (k : nat) (g : rng) : list R := map g (seq 0 k).

(** [torch.randn(s)] *)
Definition randn (s : list nat) : SE rng Tensor :=
  fun g => (Ok {| shape := s; data := draws (prod_list s) g |}, advance (prod_list s) g).

(** [torch.randn_like(t)] *)
Definition randn_like (t : Tensor) : SE rng Tensor := randn (shape t).

(** ** Linear layers *)

Record Linear : Type := mkLinear {
  in_features : nat;
  out_features : nat;
  weight : list (list R);
  bias : list R
}.

Definition dot (u v : list R) : R := sum_R (zip_with Rmult u v).

Definition linear_row (l : Linear) (row : list R) : list R :=
  zip_with (fun w b => (dot row w + b)%R) (weight l) (bias l).

(** Calling a linear layer: the last dimension must be [in_features]. *)
Definition linear (l : Linear) (t : Tensor) : result Tensor :=
  match reverse (shape t) with
  | [] => Raise RuntimeError
  | k :: lead =>
      if k =? in_features l
      then Ok {| shape := reverse lead ++ [out_features l];
                 data := concat (map (linear_row l) (chunks k (prod_list lead) (data t))) |}
      else Raise RuntimeError
  end.

(** [nn.Linear(in_f, out_f)]: the initial parameters are drawn from the
    generator. *)
Definition nn_Linear (in_f out_f : nat) : SE rng Linear :=
  fun g =>
    (Ok {| in_features := in_f;
           out_features := out_f;
           weight := chunks in_f out_f (draws (out_f * in_f) g);
           bias := draws out_f (advance (out_f * in_f) g) |},
     advance (out_f * in_f + out_f) g).

(** ** Variational autoencoder ([vae.py]) *)

(** The attributes of an [AutoencoderConvolutionalVariational] object.
    [training] is the mode flag of the module base class. *)
Record VAE : Type := mkVAE {
  decoder : Tensor -> result Tensor;
  encoder : Tensor -> result Tensor;
  z_size : nat;
  encoder_output_size : nat;
  cnn_dim : Z;
  encoding_shape : list nat;
  z_logvar : Linear;
  z_mu : Linear;
  training : bool
}.

(** [__init__] (lines 21-61).  [np.asarray(encoding.shape[1:]).prod()] is
    the integer product of the trailing sizes; for an encoding with fewer
    than two dimensions it is the float [1.0], which [nn.Linear] refuses
    as a size. *)
Definition init (x : Tensor) (cnn_dim0 : Z)
    (encoder0 decoder0 : Tensor -> result Tensor) (z_size0 : nat) : SE rng VAE :=
  encoding ← lift_result (encoder0 x);
  let size := prod_list (tail (shape encoding)) in
  let new_linear : SE rng Linear :=
    match tail (shape encoding) with
    | [] => se_raise TypeError
    | _ => nn_Linear size z_size0
    end in
  logvar_layer ← new_linear;
  mu_layer ← new_linear;
  mret {| decoder := decoder0;
          encoder := encoder0;
          z_size := z_size0;
          encoder_output_size := size;
          cnn_dim := (cnn_dim0 - 2)%Z;
          encoding_shape := shape encoding;
          z_logvar := logvar_layer;
          z_mu := mu_layer;
          training := true |}.

(** The state a method runs in: the object and the generator. *)
Record state : Type := mkState {
  self : VAE;
  gen : rng
}.

(** Reading an attribute of [self]. *)
Definition attr {A} (f : VAE -> A) : SE state A := fun st => (Ok (f (self st)), st).

(** Running a computation that only uses the generator. *)
Definition with_gen {A} (c : SE rng A) : SE state A :=
  fun st => let '(r, g) := c (gen st) in (r, {| self := self st; gen := g |}).

(** [reparameterize] (lines 82-99), a static method. *)
Definition reparameterize (training0 : bool) (z_mu0 z_logvar0 : Tensor) : SE rng Tensor :=
  if training0 then
    let std := tensor_exp (scalar_mul 0.5 z_logvar0) in
    eps ← randn_like std;
    noise ← lift_result (tensor_mul eps std);
    lift_result (tensor_add z_mu0 noise)
  else mret z_mu0.

(** [encode] (lines 63-70). *)
Definition encode (x : Tensor) : SE state (Tensor * Tensor * list nat) :=
  enc ← attr encoder;
  n ← lift_result (enc x);
  let encoded_shape := shape n in
  n ← lift_result (flatten1 n);
  mu_layer ← attr z_mu;
  mu ← lift_result (linear mu_layer n);
  logvar_layer ← attr z_logvar;
  logvar ← lift_result (linear logvar_layer n);
  mret (mu, logvar, encoded_shape).

(** [decode] (lines 72-76). *)
Definition decode (mu logvar : Tensor) (encoded_shape : list nat) : SE state Tensor :=
  mode ← attr training;
  z ← with_gen (reparameterize mode mu logvar);
  nd_z ← lift_result (view z encoded_shape);
  dec ← attr decoder;
  lift_result (dec nd_z).

(** [sample] (lines 189-205). *)
Definition sample (nb_samples : nat) : SE state Tensor :=
  zs ← attr z_size;
  random_z ← with_gen (randn [nb_samples; zs]);
  es ← attr encoding_shape;
  random_z ← lift_result (view random_z es);
  dec ← attr decoder;
  lift_result (dec random_z).

(** Values that cross a dynamically checked boundary of [forward]: the
    items of the tuple [encode] returns and the positional arguments of
    a call of [decode]. *)
Inductive value : Type :=
  | VTensor (t : Tensor)
  | VSize (s : list nat).

(** The tuple [mu, logvar, encoded_shape] built by [encode]. *)
Definition encode_tuple (r : Tensor * Tensor * list nat) : list value :=
  let '(mu, logvar, encoded_shape) := r in
  [VTensor mu; VTensor logvar; VSize encoded_shape].

(** [a, b = items]: unpacking into exactly two targets. *)
Definition unpack2 (items : list value) : result (value * value) :=
  match items with
  | [a; b] => Ok (a, b)
  | _ => Raise ValueError
  end.

(** A call of [self.decode] with the positional arguments [args]:
    [decode] has the three required parameters [mu], [logvar] and
    [encoded_shape]. *)
Definition call_decode (args : list value) : SE state Tensor :=
  match args with
  | [VTensor mu; VTensor logvar; VSize encoded_shape] => decode mu logvar encoded_shape
  | _ => se_raise TypeError
  end.

(** [forward] (lines 78-80). *)
Definition forward (x : Tensor) : SE state (Tensor * value * value) :=
  r ← encode x;
  '(mu, logvar) ← lift_result (unpack2 (encode_tuple r));
  recon ← call_decode [mu; logvar];
  mret (recon, mu, logvar).

(** *** Losses *)

(** Modelled from the spec: [LossOutput] is imported from
    [flextrain/losses], which is not part of the sources at hand.  It is
    the structured multi-term loss of the spec: an object whose [losses]
    attribute maps the name of each term to its tensor. *)
Record LossOutput : Type := mkLossOutput {
  losses : gmap string Tensor
}.

(** The reconstruction losses taken from the tensor library
    ([torch.nn.functional] and [torch.nn.PairwiseDistance(p=1,
    keepdim=True)]), all with [reduction='none'].  They are library code:
    each one either returns a tensor or raises an exception of the
    library's choosing ([ValueError] for the cross entropies on
    mismatching sizes, [RuntimeError] for sizes that do not broadcast,
    and so on), which [loss_function] lets through unchanged. *)
Record Functional : Type := mkFunctional {
  binary_cross_entropy_with_logits : Tensor -> Tensor -> result Tensor;
  binary_cross_entropy : Tensor -> Tensor -> result Tensor;
  mse_loss : Tensor -> Tensor -> result Tensor;
  pairwise_distance_l1 : Tensor -> Tensor -> result Tensor
}.

(** [batch[name]] *)
Definition getitem (batch : gmap string Tensor) (name : string) : result Tensor :=
  match batch !! name with
  | Some t => Ok t
  | None => Raise (KeyError name)
  end.

(** Lines 141-142 of [loss_function] and, verbatim, lines 183-184 of
    [loss_function_v2]. *)
Definition kullback_leibler (mu logvar : Tensor) : result Tensor :=
  t ← tensor_sub (scalar_add 1 logvar) (tensor_pow2 mu);
  t ← tensor_sub t (tensor_exp logvar);
  let kl := scalar_mul (-0.5) t in
  kl ← flatten1 kl;
  mean_dim1 kl.

Definition default_recon_loss_name : string := "BCEL".
Definition default_kullback_leibler_weight : R := 0.2%R.

(** The [if]/[elif] chain of [loss_function] (lines 125-134). *)
Definition reconstruction_loss (F : Functional) (recon_loss_name : string)
    (recon_x x : Tensor) : result Tensor :=
  if String.eqb recon_loss_name "BCEL" then
    binary_cross_entropy_with_logits F recon_x x
  else if String.eqb recon_loss_name "BCE" then
    binary_cross_entropy F recon_x x
  else if String.eqb recon_loss_name "MSE" then
    mse_loss F recon_x x
  else if String.eqb recon_loss_name "L1" then
    pairwise_distance_l1 F recon_x x
  else
    Raise (NotImplementedError ("loss not implemented=" +:+ recon_loss_name)).

(** [loss_function] (lines 101-147), a static method. *)
Definition loss_function (F : Functional) (batch : gmap string Tensor)
    (model_output : Tensor) (encoding : Tensor * Tensor * list nat)
    (x_input_name recon_loss_name : string) (kullback_leibler_weight : R)
    : result LossOutput :=
  x ← getitem batch x_input_name;
  let recon_x := model_output in
  let '(mu, logvar, _) := encoding in
  recon_loss ← reconstruction_loss F recon_loss_name recon_x x;
  recon_loss ← flatten1 recon_loss;
  recon_loss ← mean_dim1 recon_loss;
  kl ← kullback_leibler mu logvar;
  mret {| losses := <["kl" := mul_scalar kl kullback_leibler_weight]>
                      (<[recon_loss_name := recon_loss]> ∅) |}.

(** Objects on the heap: [loss_function_v2] updates the [LossOutput] it
    is handed in place and returns the very same object. *)
Definition loc : Type := positive.

Inductive pyobj : Type :=
  | ObjTensor (t : Tensor)
  | ObjLossOutput (l : loc).

(** [assert isinstance(o, LossOutput)], yielding the object's address. *)
Definition assert_LossOutput (o : pyobj) : SE (gmap loc LossOutput) loc :=
  fun h =>
    match o with
    | ObjLossOutput l =>
        if bool_decide (is_Some (h !! l)) then (Ok l, h)
        else (Raise (AssertionError None), h)
    | ObjTensor _ => (Raise (AssertionError None), h)
    end.

(** [o.losses[name] = v] *)
Definition setitem_losses (l : loc) (name : string) (v : Tensor)
    : SE (gmap loc LossOutput) unit :=
  fun h => (Ok tt, alter (fun o => {| losses := <[name := v]> (losses o) |}) l h).

(** [loss_function_v2] (lines 150-187), a static method. *)
Definition loss_function_v2 (batch : gmap string Tensor) (model_output : Tensor)
    (encoding : Tensor * Tensor * list nat)
    (recon_loss_fn : gmap string Tensor -> Tensor -> SE (gmap loc LossOutput) pyobj)
    (kullback_leibler_weight : R) : SE (gmap loc LossOutput) loc :=
  recon_loss ← recon_loss_fn batch model_output;
  recon_loss ← assert_LossOutput recon_loss;
  let '(mu, logvar, _) := encoding in
  kl ← lift_result (kullback_leibler mu logvar);
  _ ← setitem_losses recon_loss "kl" (mul_scalar kl kullback_leibler_weight);
  mret recon_loss.

(** ** Conditioned diffusion wrapper ([06_mnist_noising.py]) *)

Module DiffusionModelUNetConditioned.

Record t : Type := mk {
  base_model : Tensor -> Tensor -> result Tensor;
  image_conditioning_name : string
}.

(** [kwargs.get(name)]: [None] for a missing keyword and for a keyword
    bound to [None]. *)
Definition kwargs_get (kwargs : gmap string (option Tensor)) (name : string)
    : option Tensor :=
  default None (kwargs !! name).

(** [forward] (lines 29-34). *)
Definition forward (m : t) (x tt : Tensor) (kwargs : gmap string (option Tensor))
    : result Tensor :=
  match kwargs_get kwargs (image_conditioning_name m) with
  | None => Raise (AssertionError (Some ("missing input=" +:+ image_conditioning_name m)))
  | Some image_conditioning =>
      if shape_eqb (drop 2 (shape image_conditioning)) (drop 2 (shape x))
      then
        x_cond ← cat1 x image_conditioning;
        base_model m x_cond tt
      else Raise (AssertionError None)
  end.

End DiffusionModelUNetConditioned.

(** The noising transform of the training script (line 62),
    [lambda t: t + torch.randn_like(t)]. *)
Definition add_noise (t : Tensor) : SE rng Tensor :=
  eps ← randn_like t;
  lift_result (tensor_add t eps).

(** [encode] followed by [decode] on [encode]'s result. *)
Definition encode_then_decode (x : Tensor) : SE state Tensor :=
  '(mu, logvar, encoded_shape) ← encode x;
  decode mu logvar encoded_shape.

(** ** The operations of a model as transitions of one world

    The world holds the object, the generator and the heap of loss
    objects.  The two static methods are not handed the object. *)

Record world : Type := mkWorld {
  obj : state;
  heap : gmap loc LossOutput
}.

Definition on_obj {A} (c : SE state A) : SE world A :=
  fun w => let '(r, st) := c (obj w) in (r, {| obj := st; heap := heap w |}).

Definition on_heap {A} (c : SE (gmap loc LossOutput) A) : SE world A :=
  fun w => let '(r, h) := c (heap w) in (r, {| obj := obj w; heap := h |}).

Inductive operation : Type :=
  | CallEncode (x : Tensor)
  | CallDecode (mu logvar : Tensor) (encoded_shape : list nat)
  | CallForward (x : Tensor)
  | CallSample (nb_samples : nat)
  | CallLossFunction (F : Functional) (batch : gmap string Tensor)
      (model_output : Tensor) (encoding : Tensor * Tensor * list nat)
      (x_input_name recon_loss_name : string) (kullback_leibler_weight : R)
  | CallLossFunctionV2 (batch : gmap string Tensor) (model_output : Tensor)
      (encoding : Tensor * Tensor * list nat)
      (recon_loss_fn : gmap string Tensor -> Tensor -> SE (gmap loc LossOutput) pyobj)
      (kullback_leibler_weight : R).

(** The world after an operation, whether it returned or raised. *)
Definition after (op : operation) (w : world) : world :=
  match op with
  | CallEncode x => snd (on_obj (encode x) w)
  | CallDecode mu logvar s => snd (on_obj (decode mu logvar s) w)
  | CallForward x => snd (on_obj (forward x) w)
  | CallSample n => snd (on_obj (sample n) w)
  | CallLossFunction F batch out enc xname lname kw =>
      snd (lift_result (loss_function F batch out enc xname lname kw) w)
  | CallLossFunctionV2 batch out enc fn kw =>
      snd (on_heap (loss_function_v2 batch out enc fn kw) w)
  end.

(** ** Concrete inputs used to exercise the definitions *)

Definition zero_gen : rng := fun _ => 0%R.

Definition identity_net (t : Tensor) : result Tensor := Ok t.

(** A network whose output is always a batch of one row of three zeros. *)
Definition widening_net (t : Tensor) : result Tensor :=
  Ok {| shape := [1; 3]; data := [0; 0; 0]%R |}.

Definition x_1x2 : Tensor := {| shape := [1; 2]; data := [0; 0]%R |}.
Definition x_2x3 : Tensor := {| shape := [2; 3]; data := [0; 0; 0; 0; 0; 0]%R |}.

Definition zero_linear_2_2 : Linear :=
  {| in_features := 2; out_features := 2;
     weight := [[0; 0]; [0; 0]]%R; bias := [0; 0]%R |}.

(** The object [AutoencoderConvolutionalVariational(x_1x2, 4, identity,
    dec, 2)] when the generator hands out zeros. *)
Definition vae_1x2 (dec : Tensor -> result Tensor) : VAE :=
  {| decoder := dec;
     encoder := identity_net;
     z_size := 2;
     encoder_output_size := 2;
     cnn_dim := 2;
     encoding_shape := [1; 2];
     z_logvar := zero_linear_2_2;
     z_mu := zero_linear_2_2;
     training := true |}.

Definition st_1x2 : state := {| self := vae_1x2 identity_net; gen := zero_gen |}.

Definition zero_linear_3_1 : Linear :=
  {| in_features := 3; out_features := 1;
     weight := [[0; 0; 0]]%R; bias := [0]%R |}.

(** The object [AutoencoderConvolutionalVariational(x_2x3, 4, identity,
    identity, 1)] when the generator hands out zeros. *)
Definition vae_2x3 : VAE :=
  {| decoder := identity_net;
     encoder := identity_net;
     z_size := 1;
     encoder_output_size := 3;
     cnn_dim := 2;
     encoding_shape := [2; 3];
     z_logvar := zero_linear_3_1;
     z_mu := zero_linear_3_1;
     training := true |}.

Definition st_widening : state :=
  {| self := vae_1x2 widening_net; gen := zero_gen |}.

Definition st_2x3 : state := {| self := vae_2x3; gen := zero_gen |}.

(** A tensor with a batch of one image of one channel and 2 x 2 pixels,
    and one whose pixels are 2 x 3. *)
Definition img_2x2 : Tensor := {| shape := [1; 1; 2; 2]; data := [0; 0; 0; 0]%R |}.
Definition img_2x3 : Tensor :=
  {| shape := [1; 1; 2; 3]; data := [0; 0; 0; 0; 0; 0]%R |}.

(** A conditioned wrapper around a network that hands its input back. *)
Definition echo_wrapper : DiffusionModelUNetConditioned.t :=
  DiffusionModelUNetConditioned.mk (fun x _ => Ok x) "images".

(** Library losses that all hand back their first argument. *)
Definition echo_losses : Functional :=
  {| binary_cross_entropy_with_logits := fun a _ => Ok a;
     binary_cross_entropy := fun a _ => Ok a;
     mse_loss := fun a _ => Ok a;
     pairwise_distance_l1 := fun a _ => Ok a |}.

(** Library losses with the size check of the two cross entropies, which
    raise [ValueError] when input and target differ in size; where the
    check passes they hand back their first argument. *)
Definition size_checked_losses : Functional :=
  let checked := fun a b : Tensor =>
    if shape_eqb (shape a) (shape b) then Ok a else Raise ValueError in
  {| binary_cross_entropy_with_logits := checked;
     binary_cross_entropy := checked;
     mse_loss := fun a _ => Ok a;
     pairwise_distance_l1 := fun a _ => Ok a |}.

Definition batch_x : gmap string Tensor := {[ "x" := x_2x3 ]}.

(** A loss callback that allocates a [LossOutput] with the single term
    'l1' at address 1. *)
Definition l1_callback (batch : gmap string Tensor) (model_output : Tensor)
    : SE (gmap loc LossOutput) pyobj :=
  fun h => (Ok (ObjLossOutput 1%positive),
            <[1%positive := {| losses := {[ "l1" := model_output ]} |}]> h).

Definition world_1x2 : world := {| obj := st_1x2; heap := ∅ |}.

(** ** Definitions used to state the properties *)

(** The value the spec gives for [reparameterize] in training mode,
    element by element: [mean + noise * exp(0.5 * logvar)]. *)
Definition reparameterized (z_mu0 eps z_logvar0 : Tensor) : Tensor :=
  {| shape := shape z_mu0;
     data := zip_with (fun m el => (m + el.1 * exp (0.5 * el.2))%R)
               (data z_mu0) (zip (data eps) (data z_logvar0)) |}.

(** The same object with another stored encoding shape. *)
Definition with_encoding_shape (s : list nat) (m : VAE) : VAE :=
  {| decoder := decoder m; encoder := encoder m; z_size := z_size m;
     encoder_output_size := encoder_output_size m; cnn_dim := cnn_dim m;
     encoding_shape := s; z_logvar := z_logvar m; z_mu := z_mu m;
     training := training m |}.

(** The world after a sequence of operations. *)
Definition after_all (ops : list operation) (w : world) : world :=
  foldl (fun w op => after op w) w ops.

(** A computation that leaves the object as it found it. *)
Definition preserves_self {A} (c : SE state A) : Prop :=
  forall st, self (snd (c st)) = self st.

(** The names [loss_function] knows. *)
Definition recon_loss_names : list string := ["BCEL"; "BCE"; "MSE"; "L1"].

(** The library loss that goes with each name. *)
Definition named_loss (F : Functional) (name : string)
    : option (Tensor -> Tensor -> result Tensor) :=
  if String.eqb name "BCEL" then Some (binary_cross_entropy_with_logits F)
  else if String.eqb name "BCE" then Some (binary_cross_entropy F)
  else if String.eqb name "MSE" then Some (mse_loss F)
  else if String.eqb name "L1" then Some (pairwise_distance_l1 F)
  else None.

Definition not_implemented {A} (r : result A) : bool :=
  match r with
  | Raise (NotImplementedError _) => true
  | _ => false
  end.

(** The Kullback-Leibler term as the spec words it: for one element,
    [-0.5 * (1 + logvar - mean^2 - exp(logvar))]; for one batch sample,
    the mean of these over all the sample's elements, times the weight. *)
Definition kl_element (m l : R) : R := (-0.5 * (1 + l - m ^ 2 - exp l))%R.

(** The elements of batch sample [i]. *)
Definition sample_row (t : Tensor) (i : nat) : list R :=
  let d := prod_list (tail (shape t)) in
  take d (drop (i * d) (data t)).

Definition weighted_kl (w : R) (mu logvar : Tensor) : Tensor :=
  {| shape := [hd 0 (shape mu)];
     data := map (fun i => (w * mean_R (zip_with kl_element (sample_row mu i)
                                                            (sample_row logvar i)))%R)
                 (seq 0 (hd 0 (shape mu))) |}.

(** A linear layer whose parameters have the sizes it declares. *)
Definition layer_wf (l : Linear) : Prop :=
  length (weight l) = out_features l /\ length (bias l) = out_features l.

(** [module.train(mode)] of the module base class: only the mode flag
    changes. *)
Definition with_training (mode : bool) (m : VAE) : VAE :=
  {| decoder := decoder m; encoder := encoder m; z_size := z_size m;
     encoder_output_size := encoder_output_size m; cnn_dim := cnn_dim m;
     encoding_shape := encoding_shape m; z_logvar := z_logvar m; z_mu := z_mu m;
     training := mode |}.

Definition failing_net (t : Tensor) : result Tensor := Raise RuntimeError.

(** A network whose output has a single dimension. *)
Definition flat_net (t : Tensor) : result Tensor :=
  Ok {| shape := [2]; data := [0; 0]%R |}.

(** The object of [vae_1x2] with another encoder in its place. *)
Definition vae_with_encoder (enc : Tensor -> result Tensor) : VAE :=
  {| decoder := identity_net;
     encoder := enc;
     z_size := 2;
     encoder_output_size := 2;
     cnn_dim := 2;
     encoding_shape := [1; 2];
     z_logvar := zero_linear_2_2;
     z_mu := zero_linear_2_2;
     training := true |}.

Definition st_with_encoder (enc : Tensor -> result Tensor) : state :=
  {| self := vae_with_encoder enc; gen := zero_gen |}.

(** A loss callback that computes the reconstruction component the way
    [loss_function] does and allocates a [LossOutput] for it at [l]. *)
Definition reduced_callback (F : Functional) (x_input_name recon_loss_name : string)
    (l : loc) (batch : gmap string Tensor) (model_output : Tensor)
    : SE (gmap loc LossOutput) pyobj :=
  fun h =>
    match (x ← getitem batch x_input_name;
           r ← reconstruction_loss F recon_loss_name model_output x;
           r ← flatten1 r;
           mean_dim1 r) with
    | Ok r => (Ok (ObjLossOutput l), <[l := {| losses := {[ recon_loss_name := r ]} |}]> h)
    | Raise e => (Raise e, h)
    end.

(** * Properties *)

(** ** The fixtures are what the constructor builds *)

Lemma init_vae_1x2 dec :
  init x_1x2 4 identity_net dec 2 zero_gen = (Ok (vae_1x2 dec), zero_gen).
Proof. reflexivity. Qed.

Lemma init_vae_2x3 :
  init x_2x3 4 identity_net identity_net 1 zero_gen = (Ok vae_2x3, zero_gen).
Proof. reflexivity. Qed.

(** ** Lists of blocks *)

Lemma chunks_length k n d : length (chunks k n d) = n.
Proof. revert d. induction n as [|n IH]; intros d; simpl; [done|]. by rewrite IH. Qed.

Lemma concat_chunks k n d : length d = n * k -> concat (chunks k n d) = d.
Proof.
  revert d. induction n as [|n IH]; intros d Hlen; simpl in *.
  - by destruct d.
  - rewrite IH; [apply take_drop|]. rewrite length_drop. lia.
Qed.

Lemma Forall_chunks_length k n d :
  length d = n * k -> Forall (fun c => length c = k) (chunks k n d).
Proof.
  revert d. induction n as [|n IH]; intros d Hlen; simpl in *; constructor.
  - rewrite length_take. lia.
  - apply IH. rewrite length_drop. lia.
Qed.

Lemma chunks_lookup k n d i :
  i < n -> chunks k n d !! i = Some (take k (drop (i * k) d)).
Proof.
  revert d i. induction n as [|n IH]; intros d i Hi; [lia|].
  destruct i as [|i]; simpl; [done|].
  rewrite IH by lia. by rewrite drop_drop.
Qed.

(** ** Broadcasting on equal shapes *)

Lemma pad_shape_same s : pad_shape (length s) s = s.
Proof. unfold pad_shape. by rewrite Nat.sub_diag. Qed.

Lemma broadcast_dims_same s : broadcast_dims s s = Some s.
Proof. induction s as [|a s IH]; simpl; [done|]. by rewrite IH, Nat.eqb_refl. Qed.

Lemma broadcast_shapes_same s : broadcast_shapes s s = Some s.
Proof.
  unfold broadcast_shapes. rewrite Nat.max_id, pad_shape_same.
  apply broadcast_dims_same.
Qed.

Lemma expand_data_same s d : length d = prod_list s -> expand_data s s d = d.
Proof.
  revert d. induction s as [|a s IH]; intros d Hlen; simpl in *; [done|].
  rewrite Nat.eqb_refl.
  rewrite <- (concat_chunks (prod_list s) a d) at 2 by done.
  f_equal. rewrite <- (map_id (chunks _ _ _)) at 2.
  apply map_ext_Forall.
  eapply Forall_impl; [by apply Forall_chunks_length|].
  intros c Hc. by apply IH.
Qed.

Lemma binop_same_shape f a b :
  wf a -> wf b -> shape a = shape b ->
  binop f a b = Ok {| shape := shape a; data := zip_with f (data a) (data b) |}.
Proof.
  intros Ha Hb Hs. unfold binop. rewrite <- Hs, broadcast_shapes_same.
  rewrite pad_shape_same, !expand_data_same; [done| |done].
  unfold wf, numel in Hb. by rewrite Hs.
Qed.

Lemma wf_tmap f t : wf t -> wf (tmap f t).
Proof. unfold wf, numel. simpl. by rewrite length_map. Qed.

(** ** [forward] *)

Lemma unpack2_encode_tuple r : unpack2 (encode_tuple r) = Raise ValueError.
Proof. destruct r as [[mu logvar] s]. reflexivity. Qed.

(** Whatever [encode] does, [forward] ends by raising. *)
Lemma forward_never_returns x st : is_ok (fst (forward x st)) = false.
Proof.
  unfold forward, mbind, se_mbind, se_bind.
  destruct (encode x st) as [[r|e] st']; [|reflexivity].
  unfold lift_result. rewrite unpack2_encode_tuple. reflexivity.
Qed.

(** C1 (negative finding): for every input [x] on which [encode]
    returns, [forward x] does not return the triple of reconstruction,
    mean and log-variance.  It raises [ValueError] when it unpacks the
    three items of [encode]'s result into two names, and [decode] is
    never reached. *)
Theorem forward_raises_on_encoded_input x st :
  is_ok (fst (encode x st)) = true ->
  forward x st = (Raise ValueError, snd (encode x st)).
Proof.
  intros Henc. unfold forward, mbind, se_mbind, se_bind.
  destruct (encode x st) as [[r|e] st']; [|discriminate].
  unfold lift_result. rewrite unpack2_encode_tuple. reflexivity.
Qed.

Lemma forward_raises_on_encoded_input_witness :
  is_ok (fst (encode x_1x2 st_1x2)) = true /\
  forward x_1x2 st_1x2 = (Raise ValueError, snd (encode x_1x2 st_1x2)).
Proof.
  split; [reflexivity | apply forward_raises_on_encoded_input; reflexivity].
Defined.

(** ** [sample] *)

(** What [sample] computes: the decoder applied to the draws under the
    stored encoding shape, provided the sizes agree. *)
Lemma sample_unfold nb_samples st :
  sample nb_samples st =
    let m := self st in
    let st' := {| self := m;
                  gen := advance (prod_list [nb_samples; z_size m]) (gen st) |} in
    if nb_samples * (z_size m * 1) =? prod_list (encoding_shape m)
    then (decoder m {| shape := encoding_shape m;
                       data := draws (prod_list [nb_samples; z_size m]) (gen st) |}, st')
    else (Raise RuntimeError, st').
Proof.
  unfold sample, mbind, se_mbind, se_bind, attr, with_gen, randn, lift_result, view, numel.
  simpl. by destruct (_ =? _).
Qed.

Lemma sample_returns_only_if nb_samples st :
  is_ok (fst (sample nb_samples st)) = true ->
  nb_samples * z_size (self st) = prod_list (encoding_shape (self st)).
Proof.
  rewrite sample_unfold. simpl.
  destruct (_ =? _) eqn:E; [|discriminate].
  apply Nat.eqb_eq in E. lia.
Qed.

(** C2 (negative finding): [sample] does not produce [nb_samples]
    samples.  On the model built from a dry-run batch of one row,
    [sample 3] raises when it reshapes the 3 x 2 draws to the stored
    encoding shape [[1; 2]]; on the model built from a dry-run batch of
    two rows, [sample 6] returns a batch of two. *)
Theorem sample_ignores_nb_samples :
  fst (sample 3 st_1x2) = Raise RuntimeError /\
  shape <$> fst (sample 6 st_2x3) = Ok [2; 3].
Proof. split; reflexivity. Qed.

(** ** [encode] followed by [decode] *)

(** C7 (negative finding): [decode] hands back whatever the decoder
    produces, without padding or cropping.  With a decoder that returns
    three columns, an input with two columns comes back with three; and
    when the latent size differs from the flattened encoding size the
    reshape inside [decode] raises. *)
Theorem encode_decode_shape_not_preserved :
  shape x_1x2 = [1; 2] /\
  shape <$> fst (encode_then_decode x_1x2 st_widening) = Ok [1; 3] /\
  is_ok (fst (encode x_2x3 st_2x3)) = true /\
  fst (encode_then_decode x_2x3 st_2x3) = Raise RuntimeError.
Proof. repeat split; reflexivity. Qed.

(** ** [reparameterize] *)

Lemma length_draws k g : length (draws k g) = k.
Proof. unfold draws. by rewrite length_map, length_seq. Qed.

Lemma zip_with_affine (ms es ls : list R) :
  zip_with Rplus ms (zip_with Rmult es (map (fun v => exp (0.5 * v)) ls)) =
  zip_with (fun m el => (m + el.1 * exp (0.5 * el.2))%R) ms (zip es ls).
Proof.
  revert es ls. induction ms as [|m ms IH]; intros [|e es] [|l ls]; simpl; try done.
  by rewrite IH.
Qed.

(** C3: for a mean and a log-variance of one shape, [reparameterize] in
    training mode draws [eps] with the shape of the mean from the
    generator and returns [z_mu + eps * exp(0.5 * z_logvar)]; in
    evaluation mode it returns the mean itself and leaves the generator
    alone, so that the result is the same whatever the generator holds. *)
Theorem reparameterize_correct z_mu0 z_logvar0 g :
  wf z_mu0 -> wf z_logvar0 -> shape z_mu0 = shape z_logvar0 ->
  (exists eps,
      randn (shape z_mu0) g = (Ok eps, advance (numel z_mu0) g) /\
      shape eps = shape z_mu0 /\
      reparameterize true z_mu0 z_logvar0 g =
        (Ok (reparameterized z_mu0 eps z_logvar0), advance (numel z_mu0) g)) /\
  (forall g1 g2,
      reparameterize false z_mu0 z_logvar0 g1 = (Ok z_mu0, g1) /\
      fst (reparameterize false z_mu0 z_logvar0 g1) =
      fst (reparameterize false z_mu0 z_logvar0 g2)).
Proof.
  intros Hmu Hlv Hs. split; [|by intros g1 g2].
  eexists. split; [reflexivity|]. split; [reflexivity|].
  unfold reparameterize, mbind, se_mbind, se_bind, randn_like, randn, lift_result.
  simpl. unfold tensor_mul, tensor_add.
  rewrite binop_same_shape; simpl.
  - rewrite binop_same_shape; simpl.
    + unfold reparameterized, numel. simpl. rewrite <- Hs.
      by rewrite map_map, zip_with_affine.
    + done.
    + unfold wf, numel in *. simpl.
      rewrite length_zip_with, length_draws, !length_map. lia.
    + done.
  - unfold wf, numel. simpl. by rewrite length_draws.
  - by repeat apply wf_tmap.
  - done.
Qed.

Lemma reparameterize_correct_witness :
  wf x_1x2 /\
  shape x_1x2 = shape x_1x2 /\
  reparameterize true x_1x2 x_1x2 zero_gen =
    (Ok (reparameterized x_1x2 x_1x2 x_1x2), zero_gen) /\
  reparameterize false x_1x2 x_1x2 zero_gen = (Ok x_1x2, zero_gen).
Proof.
  split; [reflexivity|]. split; [reflexivity|].
  destruct (reparameterize_correct x_1x2 x_1x2 zero_gen) as [(eps & Hr & _ & Ht) He];
    [reflexivity | reflexivity | reflexivity |].
  injection Hr as <-. split; [exact Ht|]. exact (proj1 (He zero_gen zero_gen)).
Defined.

(** ** [decode] *)

(** C10: [decode] reshapes the reparameterized latent to the shape it is
    passed and hands that tensor to the decoder; the encoding shape
    stored in the object plays no part. *)
Theorem decode_uses_argument_shape st mu logvar encoded_shape z g' :
  reparameterize (training (self st)) mu logvar (gen st) = (Ok z, g') ->
  numel z = prod_list encoded_shape ->
  decode mu logvar encoded_shape st =
    (decoder (self st) {| shape := encoded_shape; data := data z |},
     {| self := self st; gen := g' |}) /\
  (forall stored,
      fst (decode mu logvar encoded_shape
             {| self := with_encoding_shape stored (self st); gen := gen st |}) =
      fst (decode mu logvar encoded_shape st)).
Proof.
  intros Hz Hn. split.
  - unfold decode, mbind, se_mbind, se_bind, attr, with_gen, lift_result, view.
    simpl. rewrite Hz. simpl. by rewrite Hn, Nat.eqb_refl.
  - intros stored.
    unfold decode, mbind, se_mbind, se_bind, attr, with_gen, lift_result.
    simpl. rewrite Hz. simpl. by destruct (view z encoded_shape).
Qed.

Lemma decode_uses_argument_shape_witness :
  reparameterize (training (self st_1x2)) x_1x2 x_1x2 (gen st_1x2) =
    (Ok (reparameterized x_1x2 x_1x2 x_1x2), zero_gen) /\
  numel (reparameterized x_1x2 x_1x2 x_1x2) = prod_list [2; 1] /\
  shape <$> fst (decode x_1x2 x_1x2 [2; 1] st_1x2) = Ok [2; 1].
Proof.
  split; [reflexivity|]. split; [reflexivity|].
  destruct (decode_uses_argument_shape st_1x2 x_1x2 x_1x2 [2; 1]
              (reparameterized x_1x2 x_1x2 x_1x2) zero_gen) as [H _];
    [reflexivity | reflexivity |].
  rewrite H. reflexivity.
Defined.

(** ** The object is not written by its operations *)

Lemma preserves_ret {A} (a : A) : preserves_self (mret a).
Proof. by intros st. Qed.

Lemma preserves_raise {A} e : preserves_self (se_raise (A := A) e).
Proof. by intros st. Qed.

Lemma preserves_lift {A} (r : result A) : preserves_self (lift_result r).
Proof. by intros st. Qed.

Lemma preserves_attr {A} (f : VAE -> A) : preserves_self (attr f).
Proof. by intros st. Qed.

Lemma preserves_with_gen {A} (c : SE rng A) : preserves_self (with_gen c).
Proof. intros st. unfold with_gen. by destruct (c (gen st)). Qed.

Lemma preserves_bind {A B} (c : SE state A) (k : A -> SE state B) :
  preserves_self c -> (forall a, preserves_self (k a)) -> preserves_self (c ≫= k).
Proof.
  intros Hc Hk st. unfold mbind, se_mbind, se_bind.
  specialize (Hc st). destruct (c st) as [[a|e] st']; simpl in *; [|done].
  by rewrite Hk.
Qed.

Create HintDb frame.
#[local] Hint Resolve preserves_ret preserves_raise preserves_lift preserves_attr
  preserves_with_gen : frame.

Ltac frame_step :=
  first [ apply preserves_bind; [|intros ?] | solve [auto with frame] ].

Lemma preserves_encode x : preserves_self (encode x).
Proof. unfold encode. repeat frame_step. Qed.

Lemma preserves_decode mu logvar s : preserves_self (decode mu logvar s).
Proof. unfold decode. repeat frame_step. Qed.

Lemma preserves_sample n : preserves_self (sample n).
Proof. unfold sample. repeat frame_step. Qed.

Lemma preserves_call_decode args : preserves_self (call_decode args).
Proof.
  unfold call_decode.
  repeat (match goal with |- preserves_self (match ?v with _ => _ end) => destruct v end);
    auto using preserves_decode with frame.
Qed.

Lemma preserves_forward x : preserves_self (forward x).
Proof.
  unfold forward.
  apply preserves_bind; [apply preserves_encode|intros r].
  apply preserves_bind; [auto with frame|intros [mu logvar]].
  apply preserves_bind; [apply preserves_call_decode|intros recon].
  auto with frame.
Qed.

Lemma on_obj_self {A} (c : SE state A) w :
  preserves_self c -> self (obj (snd (on_obj c w))) = self (obj w).
Proof. intros Hc. unfold on_obj. specialize (Hc (obj w)). by destruct (c (obj w)). Qed.

Lemma after_self op w : self (obj (after op w)) = self (obj w).
Proof.
  destruct op; simpl.
  - apply on_obj_self, preserves_encode.
  - apply on_obj_self, preserves_decode.
  - apply on_obj_self, preserves_forward.
  - apply on_obj_self, preserves_sample.
  - done.
  - unfold on_heap. by destruct (loss_function_v2 _ _ _ _ _ _).
Qed.

Lemma after_all_self ops w : self (obj (after_all ops w)) = self (obj w).
Proof.
  revert w. induction ops as [|op ops IH]; intros w; simpl; [done|].
  unfold after_all in *. simpl. by rewrite IH, after_self.
Qed.

Lemma init_inv x cnn enc dec z g m g' :
  init x cnn enc dec z g = (Ok m, g') ->
  exists e,
    enc x = Ok e /\
    in_features (z_mu m) = prod_list (tail (shape e)) /\
    in_features (z_logvar m) = prod_list (tail (shape e)) /\
    encoder_output_size m = prod_list (tail (shape e)) /\
    encoding_shape m = shape e.
Proof.
  unfold init, mbind, se_mbind, se_bind, lift_result.
  destruct (enc x) as [e|err]; [|discriminate].
  destruct (tail (shape e)) eqn:Ht; [discriminate|].
  unfold nn_Linear. simpl. intros [= <- _]. exists e. by rewrite Ht.
Qed.

(** C9: the constructor sizes both projections by the product of the
    non-batch dimensions of the encoder's output on the dry-run input,
    and whatever operations are then run on the object, in any order and
    whether they return or raise, the projections, the stored encoder
    output size and the stored encoding shape stay as constructed. *)
Theorem projections_sized_once x cnn enc dec z g m g' :
  init x cnn enc dec z g = (Ok m, g') ->
  (exists e,
      enc x = Ok e /\
      in_features (z_mu m) = prod_list (tail (shape e)) /\
      in_features (z_logvar m) = prod_list (tail (shape e))) /\
  (forall ops w,
      self (obj w) = m ->
      let m' := self (obj (after_all ops w)) in
      z_mu m' = z_mu m /\ z_logvar m' = z_logvar m /\
      encoder_output_size m' = encoder_output_size m /\
      encoding_shape m' = encoding_shape m).
Proof.
  intros Hinit. split.
  - destruct (init_inv _ _ _ _ _ _ _ _ Hinit) as (e & He & Hmu & Hlv & _).
    by exists e.
  - intros ops w Hw m'. subst m'. by rewrite after_all_self, Hw.
Qed.

Lemma projections_sized_once_witness :
  init x_1x2 4 identity_net identity_net 2 zero_gen =
    (Ok (vae_1x2 identity_net), zero_gen) /\
  in_features (z_mu (vae_1x2 identity_net)) = 2 /\
  encoding_shape
    (self (obj (after_all [CallForward x_1x2; CallSample 3; CallEncode x_1x2] world_1x2))) =
    [1; 2].
Proof.
  split; [reflexivity|]. split; [reflexivity|].
  destruct (projections_sized_once x_1x2 4 identity_net identity_net 2 zero_gen
              (vae_1x2 identity_net) zero_gen) as [_ H]; [reflexivity|].
  destruct (H [CallForward x_1x2; CallSample 3; CallEncode x_1x2] world_1x2)
    as (_ & _ & _ & Hshape); [reflexivity|].
  exact Hshape.
Defined.

(** ** Conditioned diffusion wrapper *)

Lemma cat1_regular a b n ca cb rest :
  shape a = n :: ca :: rest -> shape b = n :: cb :: rest ->
  cat1 a b =
    Ok {| shape := n :: (ca + cb) :: rest;
          data := concat (zip_with app (chunks (ca * prod_list rest) n (data a))
                                       (chunks (cb * prod_list rest) n (data b))) |}.
Proof.
  intros Ha Hb. unfold cat1, is_legacy_empty, shape_eqb. rewrite Ha, Hb.
  rewrite !bool_decide_eq_false_2 by done.
  by rewrite Nat.eqb_refl, bool_decide_eq_true_2.
Qed.

(** C6: [forward] fails by assertion when no tensor is bound to the
    conditioning name (the keyword is missing or bound to [None]); it
    fails by assertion when the sizes from index 2 on differ between the
    conditioning tensor and [x]; otherwise its result is the base network
    applied to [torch.cat([x, conditioning], dim=1)] and [t], which for
    tensors agreeing in batch and spatial sizes is the tensor whose
    channel size is the sum of the two.  The wrapper is a function of its
    arguments alone. *)
Theorem conditioned_forward_correct (m : DiffusionModelUNetConditioned.t)
    (x t : Tensor) (kwargs : gmap string (option Tensor)) :
  let name := DiffusionModelUNetConditioned.image_conditioning_name m in
  (kwargs !! name = None \/ kwargs !! name = Some None ->
     DiffusionModelUNetConditioned.forward m x t kwargs =
       Raise (AssertionError (Some ("missing input=" +:+ name)))) /\
  (forall c,
     kwargs !! name = Some (Some c) ->
     drop 2 (shape c) <> drop 2 (shape x) ->
     DiffusionModelUNetConditioned.forward m x t kwargs = Raise (AssertionError None)) /\
  (forall c,
     kwargs !! name = Some (Some c) ->
     drop 2 (shape c) = drop 2 (shape x) ->
     DiffusionModelUNetConditioned.forward m x t kwargs =
       (x_cond ← cat1 x c; DiffusionModelUNetConditioned.base_model m x_cond t)) /\
  (forall c n cx cc rest,
     kwargs !! name = Some (Some c) ->
     shape x = n :: cx :: rest ->
     shape c = n :: cc :: rest ->
     DiffusionModelUNetConditioned.forward m x t kwargs =
       DiffusionModelUNetConditioned.base_model m
         {| shape := n :: (cx + cc) :: rest;
            data := concat (zip_with app (chunks (cx * prod_list rest) n (data x))
                                         (chunks (cc * prod_list rest) n (data c))) |}
         t).
Proof.
  intros name. unfold DiffusionModelUNetConditioned.forward, DiffusionModelUNetConditioned.kwargs_get. fold name.
  repeat split.
  - by intros [-> | ->].
  - intros c -> Hne. simpl. unfold shape_eqb. by rewrite bool_decide_eq_false_2.
  - intros c -> He. simpl. unfold shape_eqb. by rewrite bool_decide_eq_true_2.
  - intros c n cx cc rest -> Hx Hc. simpl. unfold shape_eqb.
    rewrite Hx, Hc. simpl. rewrite bool_decide_eq_true_2 by done.
    by rewrite (cat1_regular x c n cx cc rest).
Qed.

Lemma conditioned_forward_correct_witness :
  DiffusionModelUNetConditioned.forward echo_wrapper img_2x2 img_2x2 ∅ =
    Raise (AssertionError (Some "missing input=images")) /\
  DiffusionModelUNetConditioned.forward echo_wrapper img_2x2 img_2x2
    {[ "images" := Some img_2x3 ]} = Raise (AssertionError None) /\
  DiffusionModelUNetConditioned.forward echo_wrapper img_2x2 img_2x2
    {[ "images" := Some img_2x2 ]} =
    Ok {| shape := [1; 2; 2; 2]; data := [0; 0; 0; 0; 0; 0; 0; 0]%R |}.
Proof.
  split; [|split].
  - apply (conditioned_forward_correct echo_wrapper img_2x2 img_2x2 ∅).
    left. reflexivity.
  - apply (proj1 (proj2 (conditioned_forward_correct echo_wrapper img_2x2 img_2x2
                           {[ "images" := Some img_2x3 ]})) img_2x3).
    + reflexivity.
    + discriminate.
  - apply (proj2 (proj2 (proj2 (conditioned_forward_correct echo_wrapper img_2x2 img_2x2
                           {[ "images" := Some img_2x2 ]}))) img_2x2 1 1 1 [2; 2]);
      reflexivity.
Defined.

(** ** [loss_function]: selection of the reconstruction loss *)

Lemma named_loss_is_Some F name : is_Some (named_loss F name) <-> name ∈ recon_loss_names.
Proof.
  unfold named_loss, recon_loss_names.
  repeat match goal with
    | |- context [String.eqb name ?s] =>
        destruct (String.eqb_spec name s) as [->|?];
          [split; [intros _; repeat constructor | intros _; eauto]|]
    end.
  split; [by intros [? ?]|].
  rewrite !elem_of_cons, elem_of_nil. tauto.
Qed.

Lemma reconstruction_loss_named F name recon_x x :
  reconstruction_loss F name recon_x x =
    match named_loss F name with
    | Some f => f recon_x x
    | None => Raise (NotImplementedError ("loss not implemented=" +:+ name))
    end.
Proof.
  unfold reconstruction_loss, named_loss.
  by repeat (destruct (String.eqb name _); [done|]).
Qed.

Lemma binop_implemented f a b : not_implemented (binop f a b) = false.
Proof. unfold binop. by destruct (broadcast_shapes _ _). Qed.

Lemma flatten1_implemented t : not_implemented (flatten1 t) = false.
Proof. unfold flatten1. by destruct (shape t) as [|? [|? ?]]. Qed.

Lemma mean_dim1_implemented t : not_implemented (mean_dim1 t) = false.
Proof. unfold mean_dim1. by destruct (shape t) as [|? [|? ?]]. Qed.

Lemma bind_implemented {A B} (r : result A) (k : A -> result B) :
  not_implemented r = false -> (forall a, not_implemented (k a) = false) ->
  not_implemented (r ≫= k) = false.
Proof. intros Hr Hk. destruct r as [a|e]; simpl; [apply Hk|done]. Qed.

Lemma kullback_leibler_implemented mu logvar :
  not_implemented (kullback_leibler mu logvar) = false.
Proof.
  unfold kullback_leibler, tensor_sub.
  repeat (apply bind_implemented; [|intros ?]);
    auto using binop_implemented, flatten1_implemented, mean_dim1_implemented.
Qed.

(** C5: a batch without the input name makes [loss_function] raise
    [KeyError] before the loss name is looked at, whatever the name is.
    Once the batch holds the input, a name outside of BCEL, BCE, MSE and
    L1 makes it raise [NotImplementedError] with the message
    'loss not implemented=' followed by the name; for a name inside, the
    selection yields the library loss of that name applied to the
    reconstruction and the input and raises nothing of its own, so that
    [loss_function] raises [NotImplementedError] only when that library
    loss raises it.  For library losses that never raise
    [NotImplementedError], [loss_function] raises it exactly for the
    names outside of the four. *)
Theorem loss_function_not_implemented_iff F batch model_output encoding
    x_input_name recon_loss_name kullback_leibler_weight :
  let r := loss_function F batch model_output encoding x_input_name
             recon_loss_name kullback_leibler_weight in
  (batch !! x_input_name = None -> r = Raise (KeyError x_input_name)) /\
  (forall x, batch !! x_input_name = Some x ->
     (recon_loss_name ∉ recon_loss_names ->
        r = Raise (NotImplementedError ("loss not implemented=" +:+ recon_loss_name))) /\
     (recon_loss_name ∈ recon_loss_names ->
        exists f, named_loss F recon_loss_name = Some f /\
          reconstruction_loss F recon_loss_name model_output x = f model_output x /\
          (not_implemented r = true <-> not_implemented (f model_output x) = true)) /\
     ((forall f, named_loss F recon_loss_name = Some f ->
         not_implemented (f model_output x) = false) ->
      (not_implemented r = true <-> recon_loss_name ∉ recon_loss_names))).
Proof.
  intros r. split.
  { intros Hx. subst r. unfold loss_function, getitem. by rewrite Hx. }
  intros x Hx.
  assert (Hr : r = (let '(mu, logvar, _) := encoding in
     recon_loss ← reconstruction_loss F recon_loss_name model_output x;
     recon_loss ← flatten1 recon_loss;
     recon_loss ← mean_dim1 recon_loss;
     kl ← kullback_leibler mu logvar;
     mret {| losses := <["kl" := mul_scalar kl kullback_leibler_weight]>
                         (<[recon_loss_name := recon_loss]> ∅) |})).
  { subst r. unfold loss_function, getitem. by rewrite Hx. }
  destruct encoding as [[mu logvar] s].
  rewrite reconstruction_loss_named in *.
  pose proof (named_loss_is_Some F recon_loss_name) as Hn.
  destruct (named_loss F recon_loss_name) as [f|].
  - assert (Hin : recon_loss_name ∈ recon_loss_names) by (apply Hn; eauto).
    assert (Hiff : not_implemented r = true <-> not_implemented (f model_output x) = true).
    { rewrite Hr. destruct (f model_output x) as [t|e]; [|done]. simpl.
      rewrite bind_implemented; [done|apply flatten1_implemented|].
      intros ?. apply bind_implemented; [apply mean_dim1_implemented|intros ?].
      apply bind_implemented; [apply kullback_leibler_implemented|by intros ?]. }
    split; [by intros Hout|]. split.
    + intros _. by exists f.
    + intros Hlib. rewrite Hiff, (Hlib f eq_refl). split; [done|by intros Hout].
  - assert (Hout : recon_loss_name ∉ recon_loss_names).
    { intros Hin. apply Hn in Hin. by destruct Hin. }
    split; [by intros _|]. split; [by intros Hin|].
    intros _. by rewrite Hr.
Qed.

Lemma loss_function_not_implemented_iff_witness :
  batch_x !! "x" = Some x_2x3 /\
  loss_function echo_losses ∅ x_2x3 (x_2x3, x_2x3, [2; 3]) "x" "huber" 0.2 =
    Raise (KeyError "x") /\
  loss_function echo_losses batch_x x_2x3 (x_2x3, x_2x3, [2; 3]) "x" "huber" 0.2 =
    Raise (NotImplementedError "loss not implemented=huber") /\
  not_implemented
    (loss_function echo_losses batch_x x_2x3 (x_2x3, x_2x3, [2; 3]) "x" "MSE" 0.2) <> true.
Proof.
  split; [reflexivity|].
  split.
  { apply (loss_function_not_implemented_iff echo_losses ∅ x_2x3
             (x_2x3, x_2x3, [2; 3]) "x" "huber" 0.2). reflexivity. }
  split.
  - apply (proj2 (loss_function_not_implemented_iff echo_losses batch_x x_2x3
                    (x_2x3, x_2x3, [2; 3]) "x" "huber" 0.2) x_2x3 eq_refl).
    unfold recon_loss_names. rewrite !elem_of_cons, elem_of_nil.
    intros [H|[H|[H|[H|[]]]]]; discriminate H.
  - intros Hni.
    apply (proj2 (loss_function_not_implemented_iff echo_losses batch_x x_2x3
                    (x_2x3, x_2x3, [2; 3]) "x" "MSE" 0.2) x_2x3 eq_refl) in Hni.
    + apply Hni. unfold recon_loss_names. repeat constructor.
    + intros f [= <-]. reflexivity.
Defined.

(** The claim without the condition on the batch fails: with an empty
    batch the unknown name 'huber' gives [KeyError], raised by the lookup
    of the input on line 122, and no [NotImplementedError]. *)
Lemma loss_function_key_error_counterexample :
  ("huber" ∉ recon_loss_names) /\
  loss_function echo_losses ∅ x_2x3 (x_2x3, x_2x3, [2; 3]) "x" "huber" 0.2 =
    Raise (KeyError "x") /\
  ~ (not_implemented
       (loss_function echo_losses ∅ x_2x3 (x_2x3, x_2x3, [2; 3]) "x" "huber" 0.2) = true <->
     "huber" ∉ recon_loss_names).
Proof.
  assert (Hout : "huber" ∉ recon_loss_names).
  { unfold recon_loss_names. rewrite !elem_of_cons, elem_of_nil.
    intros [H|[H|[H|[H|[]]]]]; discriminate H. }
  split; [exact Hout|]. split; [reflexivity|].
  intros [_ Hiff]. specialize (Hiff Hout). discriminate Hiff.
Qed.

(** ** The Kullback-Leibler term *)

Lemma kl_data (ms ls : list R) :
  map (fun v => (-0.5 * v)%R)
      (zip_with Rminus
         (zip_with Rminus (map (fun v => (1 + v)%R) ls) (map (fun v => (v ^ 2)%R) ms))
         (map exp ls)) =
  zip_with kl_element ms ls.
Proof.
  revert ls. induction ms as [|m ms IH]; intros [|l ls]; simpl; try done.
  by rewrite IH.
Qed.

Lemma map_nth_seq (blk : list R) :
  map (fun j => nth (j * 1 + 0) blk 0%R) (seq 0 (length blk)) = blk.
Proof.
  induction blk as [|a blk IH]; simpl; [done|].
  f_equal. rewrite <- seq_shift, map_map. rewrite <- IH at 2.
  apply map_ext. intros j. by rewrite !Nat.mul_1_r, !Nat.add_0_r.
Qed.

Lemma mean_dim1_rows t n d :
  shape t = [n; d] -> length (data t) = n * d ->
  mean_dim1 t = Ok {| shape := [n]; data := map mean_R (chunks d n (data t)) |}.
Proof.
  intros Hs Hlen. unfold mean_dim1. rewrite Hs. simpl. f_equal. f_equal.
  rewrite Nat.mul_1_r.
  induction (Forall_chunks_length d n (data t) Hlen) as [|blk blks Hblk _ IH];
    simpl; [done|].
  rewrite IH. f_equal. f_equal. subst d. apply map_nth_seq.
Qed.

Lemma map_chunks_seq {B} (g : list R -> B) k n d :
  map g (chunks k n d) = map (fun i => g (take k (drop (i * k) d))) (seq 0 n).
Proof.
  revert d. induction n as [|n IH]; intros d; simpl; [done|].
  f_equal. rewrite <- seq_shift, map_map, IH.
  apply map_ext. intros i. by rewrite drop_drop.
Qed.

Lemma kullback_leibler_same_shape mu logvar n d rest :
  wf mu -> wf logvar ->
  shape mu = n :: d :: rest -> shape logvar = n :: d :: rest ->
  kullback_leibler mu logvar =
    Ok {| shape := [n];
          data := map mean_R (chunks (prod_list (d :: rest)) n
                                (zip_with kl_element (data mu) (data logvar))) |}.
Proof.
  intros Hmu Hlv Hsm Hsl. unfold kullback_leibler, tensor_sub.
  assert (Hlm : length (data mu) = n * prod_list (d :: rest)).
  { unfold wf, numel in Hmu. by rewrite Hmu, Hsm. }
  assert (Hll : length (data logvar) = n * prod_list (d :: rest)).
  { unfold wf, numel in Hlv. by rewrite Hlv, Hsl. }
  rewrite binop_same_shape; simpl.
  2: by apply wf_tmap. 2: by apply wf_tmap. 2: by rewrite Hsm, Hsl.
  rewrite binop_same_shape; simpl.
  2: { unfold wf, numel. simpl. rewrite length_zip_with, !length_map, Hsl, Hlm, Hll.
       apply Nat.min_id. }
  2: by apply wf_tmap. 2: done.
  unfold flatten1. simpl. rewrite Hsl. simpl.
  rewrite mean_dim1_rows with (n := n) (d := prod_list (d :: rest)); simpl.
  - by rewrite kl_data.
  - done.
  - rewrite kl_data, length_zip_with, Hlm, Hll. apply Nat.min_id.
Qed.

Lemma weighted_kl_code mu logvar w n d rest :
  shape mu = n :: d :: rest -> shape logvar = n :: d :: rest ->
  mul_scalar {| shape := [n];
                data := map mean_R (chunks (prod_list (d :: rest)) n
                                      (zip_with kl_element (data mu) (data logvar))) |} w =
  weighted_kl w mu logvar.
Proof.
  intros Hsm Hsl. unfold mul_scalar, tmap, weighted_kl, sample_row. simpl.
  rewrite Hsm, Hsl. simpl. f_equal.
  rewrite map_map, map_chunks_seq. apply map_ext. intros i.
  rewrite zip_with_drop, zip_with_take. apply Rmult_comm.
Qed.

Lemma kl_element_zero : kl_element 0 0 = 0%R.
Proof. unfold kl_element. rewrite exp_0. lra. Qed.

Lemma sum_R_zero (l : list R) : Forall (fun v => v = 0%R) l -> sum_R l = 0%R.
Proof. induction 1 as [|v l -> _ IH]; simpl; [done|]. rewrite IH. lra. Qed.

Lemma zip_with_kl_zero (ms ls : list R) :
  Forall (fun v => v = 0%R) ms -> Forall (fun v => v = 0%R) ls ->
  Forall (fun v => v = 0%R) (zip_with kl_element ms ls).
Proof.
  intros Hm. revert ls. induction Hm as [|m ms -> _ IH]; intros ls Hl; simpl; [done|].
  destruct Hl as [|l ls -> Hl]; constructor; [apply kl_element_zero|by apply IH].
Qed.

Lemma weighted_kl_zero w mu logvar :
  Forall (fun v => v = 0%R) (data mu) -> Forall (fun v => v = 0%R) (data logvar) ->
  Forall (fun v => v = 0%R) (data (weighted_kl w mu logvar)).
Proof.
  intros Hm Hl. unfold weighted_kl. simpl. apply Forall_map, Forall_forall.
  intros i _. simpl. unfold mean_R, sample_row.
  rewrite sum_R_zero; [unfold Rdiv; lra|].
  apply zip_with_kl_zero; by apply Forall_take, Forall_drop.
Qed.

(** ** [loss_function] and [loss_function_v2] *)

Lemma alter_lookup_Some (h : gmap loc LossOutput) (f : LossOutput -> LossOutput) l lo :
  h !! l = Some lo -> alter f l h = <[l := f lo]> h.
Proof.
  intros Hl. apply map_eq. intros j. destruct (decide (l = j)) as [<-|Hne].
  - by rewrite lookup_alter_eq, lookup_insert_eq, Hl.
  - by rewrite lookup_alter_ne, lookup_insert_ne.
Qed.

Lemma loss_function_returns F batch model_output mu logvar s x_input_name
    recon_loss_name w x r kl :
  batch !! x_input_name = Some x ->
  ((reconstruction_loss F recon_loss_name model_output x ≫= flatten1) ≫= mean_dim1) = Ok r ->
  kullback_leibler mu logvar = Ok kl ->
  loss_function F batch model_output (mu, logvar, s) x_input_name recon_loss_name w =
    Ok {| losses := <["kl" := mul_scalar kl w]> (<[recon_loss_name := r]> ∅) |}.
Proof.
  intros Hx Hr Hkl. unfold loss_function, getitem. rewrite Hx. simpl.
  destruct (reconstruction_loss _ _ _ _) as [r0|]; [simpl in *|done].
  destruct (flatten1 r0) as [r1|]; [simpl in *|done].
  rewrite Hr. simpl. by rewrite Hkl.
Qed.

Lemma loss_function_kl F batch model_output mu logvar s x_input_name
    recon_loss_name w lo :
  loss_function F batch model_output (mu, logvar, s) x_input_name recon_loss_name w = Ok lo ->
  exists kl, kullback_leibler mu logvar = Ok kl /\
             losses lo !! "kl" = Some (mul_scalar kl w).
Proof.
  unfold loss_function.
  destruct (getitem _ _) as [x|]; [simpl|done].
  destruct (reconstruction_loss _ _ _ _) as [r0|]; [simpl|done].
  destruct (flatten1 r0) as [r1|]; [simpl|done].
  destruct (mean_dim1 r1) as [r2|]; [simpl|done].
  destruct (kullback_leibler mu logvar) as [kl|]; [simpl|done].
  intros [= <-]. exists kl. split; [done|]. simpl. by rewrite lookup_insert_eq.
Qed.

Lemma loss_function_v2_returns batch model_output mu logvar s recon_loss_fn w h l h1 lo kl :
  recon_loss_fn batch model_output h = (Ok (ObjLossOutput l), h1) ->
  h1 !! l = Some lo ->
  kullback_leibler mu logvar = Ok kl ->
  loss_function_v2 batch model_output (mu, logvar, s) recon_loss_fn w h =
    (Ok l, <[l := {| losses := <["kl" := mul_scalar kl w]> (losses lo) |}]> h1).
Proof.
  intros Hfn Hl Hkl.
  unfold loss_function_v2, mbind, se_mbind, se_bind, assert_LossOutput,
    setitem_losses, lift_result.
  rewrite Hfn. rewrite bool_decide_eq_true_2 by eauto.
  rewrite Hkl. simpl. by erewrite alter_lookup_Some.
Qed.

Lemma loss_function_v2_kl batch model_output mu logvar s recon_loss_fn w h l h' :
  loss_function_v2 batch model_output (mu, logvar, s) recon_loss_fn w h = (Ok l, h') ->
  exists kl lo, kullback_leibler mu logvar = Ok kl /\
                h' !! l = Some lo /\
                losses lo !! "kl" = Some (mul_scalar kl w).
Proof.
  unfold loss_function_v2, mbind, se_mbind, se_bind, assert_LossOutput,
    setitem_losses, lift_result.
  destruct (recon_loss_fn batch model_output h) as [[[t|l0]|e] h1]; [done| |done].
  destruct (bool_decide (is_Some (h1 !! l0))) eqn:Hl0; [|done].
  apply bool_decide_eq_true_1 in Hl0. destruct Hl0 as [lo Hlo].
  destruct (kullback_leibler mu logvar) as [kl|]; [simpl|done].
  intros [= <- <-]. exists kl. eexists. split; [done|].
  rewrite lookup_alter_eq, Hlo. simpl. split; [done|]. apply lookup_insert_eq.
Qed.

(** C4: for a mean and a log-variance of one shape with a batch
    dimension and at least one non-empty further dimension, the 'kl'
    component of the loss returned by [loss_function] and by
    [loss_function_v2] holds, for each batch sample, the weight times the
    mean over the sample's elements of
    [-0.5 * (1 + logvar - mean^2 - exp(logvar))]; both functions return
    whenever their reconstruction part does; and the component is zero
    when all elements of mean and log-variance are zero. *)
Theorem kl_component_correct mu logvar s w n d rest :
  wf mu -> wf logvar ->
  shape mu = n :: d :: rest -> shape logvar = n :: d :: rest ->
  prod_list (d :: rest) <> 0 ->
  let K := weighted_kl w mu logvar in
  (forall F batch model_output x_input_name recon_loss_name x r,
      batch !! x_input_name = Some x ->
      ((reconstruction_loss F recon_loss_name model_output x ≫= flatten1) ≫= mean_dim1) = Ok r ->
      loss_function F batch model_output (mu, logvar, s) x_input_name recon_loss_name w =
        Ok {| losses := <["kl" := K]> (<[recon_loss_name := r]> ∅) |}) /\
  (forall F batch model_output x_input_name recon_loss_name lo,
      loss_function F batch model_output (mu, logvar, s) x_input_name recon_loss_name w = Ok lo ->
      losses lo !! "kl" = Some K) /\
  (forall batch model_output recon_loss_fn h l h1 lo,
      recon_loss_fn batch model_output h = (Ok (ObjLossOutput l), h1) ->
      h1 !! l = Some lo ->
      loss_function_v2 batch model_output (mu, logvar, s) recon_loss_fn w h =
        (Ok l, <[l := {| losses := <["kl" := K]> (losses lo) |}]> h1)) /\
  (forall batch model_output recon_loss_fn h l h',
      loss_function_v2 batch model_output (mu, logvar, s) recon_loss_fn w h = (Ok l, h') ->
      exists lo, h' !! l = Some lo /\ losses lo !! "kl" = Some K) /\
  (Forall (fun v => v = 0%R) (data mu) ->
   Forall (fun v => v = 0%R) (data logvar) ->
   Forall (fun v => v = 0%R) (data K)).
Proof.
  intros Hmu Hlv Hsm Hsl _ K.
  pose proof (kullback_leibler_same_shape mu logvar n d rest Hmu Hlv Hsm Hsl) as Hkl.
  pose proof (weighted_kl_code mu logvar w n d rest Hsm Hsl) as HK. fold K in HK.
  repeat split.
  - intros F batch out xn ln x r Hx Hr. rewrite <- HK.
    by apply loss_function_returns with (x := x).
  - intros F batch out xn ln lo Hlo.
    destruct (loss_function_kl _ _ _ _ _ _ _ _ _ _ Hlo) as (kl & Hkl' & Hl).
    rewrite Hkl in Hkl'. injection Hkl' as <-. by rewrite <- HK.
  - intros batch out fn h l h1 lo Hfn Hl. rewrite <- HK.
    by apply loss_function_v2_returns.
  - intros batch out fn h l h' Hv2.
    destruct (loss_function_v2_kl _ _ _ _ _ _ _ _ _ _ Hv2) as (kl & lo & Hkl' & Hl & Hk).
    rewrite Hkl in Hkl'. injection Hkl' as <-. exists lo. by rewrite <- HK.
  - apply weighted_kl_zero.
Qed.

Lemma kl_component_correct_witness :
  wf x_2x3 /\
  shape x_2x3 = [2; 3] /\
  prod_list [3] <> 0 /\
  Forall (fun v => v = 0%R) (data (weighted_kl 0.2 x_2x3 x_2x3)) /\
  exists r,
    loss_function echo_losses batch_x x_2x3 (x_2x3, x_2x3, [1; 6]) "x" "MSE" 0.2 =
      Ok {| losses := <["kl" := weighted_kl 0.2 x_2x3 x_2x3]> (<["MSE" := r]> ∅) |}.
Proof.
  split; [reflexivity|]. split; [reflexivity|]. split; [discriminate|].
  destruct (kl_component_correct x_2x3 x_2x3 [1; 6] 0.2 2 3 [])
    as (Hret & _ & _ & _ & Hzero);
    [reflexivity | reflexivity | reflexivity | reflexivity | discriminate |].
  split.
  - apply Hzero; repeat constructor.
  - eexists. apply (Hret echo_losses batch_x x_2x3 "x" "MSE" x_2x3); reflexivity.
Defined.

(** C8: when the supplied loss function yields a [LossOutput] and the
    mean and the log-variance of the encoding fill one shape with a batch
    dimension and at least one element per sample, [loss_function_v2]
    returns that same object; its 'kl' component holds, for each batch
    sample, the weight times the mean over the sample's elements of
    [-0.5 * (1 + logvar - mean^2 - exp(logvar))], whatever was stored
    under that name before; every other component is the tensor the
    supplied function put there; and no other object is touched.  For
    any encoding at all, whenever [loss_function_v2] returns, it returns
    that object with these other components and objects as they were. *)
Theorem loss_function_v2_keeps_components batch model_output mu logvar s
    recon_loss_fn w h l h1 lo :
  recon_loss_fn batch model_output h = (Ok (ObjLossOutput l), h1) ->
  h1 !! l = Some lo ->
  let r := loss_function_v2 batch model_output (mu, logvar, s) recon_loss_fn w h in
  (forall n d rest,
     wf mu -> wf logvar ->
     shape mu = n :: d :: rest -> shape logvar = n :: d :: rest ->
     prod_list (d :: rest) <> 0 ->
     exists h' lo',
       r = (Ok l, h') /\
       h' !! l = Some lo' /\
       losses lo' !! "kl" = Some (weighted_kl w mu logvar) /\
       (forall name, name <> "kl" -> losses lo' !! name = losses lo !! name) /\
       (forall l', l' <> l -> h' !! l' = h1 !! l')) /\
  (forall l0 h', r = (Ok l0, h') ->
     l0 = l /\
     exists lo',
       h' !! l = Some lo' /\
       is_Some (losses lo' !! "kl") /\
       (forall name, name <> "kl" -> losses lo' !! name = losses lo !! name) /\
       (forall l', l' <> l -> h' !! l' = h1 !! l')).
Proof.
  intros Hfn Hl r. split.
  - intros n d rest Hmu Hlv Hsm Hsl _.
    pose proof (kullback_leibler_same_shape mu logvar n d rest Hmu Hlv Hsm Hsl) as Hkl.
    pose proof (weighted_kl_code mu logvar w n d rest Hsm Hsl) as HK.
    do 2 eexists.
    split; [subst r; by apply loss_function_v2_returns|].
    split; [by rewrite lookup_insert_eq|].
    split; [rewrite <- HK; simpl; by rewrite lookup_insert_eq|]. simpl.
    split.
    + intros name Hne. by rewrite lookup_insert_ne.
    + intros l' Hne. by rewrite lookup_insert_ne.
  - intros l0 h' Hr. subst r.
    destruct (kullback_leibler mu logvar) as [kl|e] eqn:Hkl.
    + rewrite (loss_function_v2_returns _ _ _ _ _ _ _ _ _ _ _ _ Hfn Hl Hkl) in Hr.
      injection Hr as <- <-. split; [done|]. eexists.
      split; [by rewrite lookup_insert_eq|]. simpl.
      split; [by rewrite lookup_insert_eq|].
      split.
      * intros name Hne. by rewrite lookup_insert_ne.
      * intros l' Hne. by rewrite lookup_insert_ne.
    + exfalso. revert Hr.
      unfold loss_function_v2, mbind, se_mbind, se_bind, assert_LossOutput,
        setitem_losses, lift_result.
      rewrite Hfn. rewrite bool_decide_eq_true_2 by eauto.
      by rewrite Hkl.
Qed.

Lemma loss_function_v2_keeps_components_witness :
  wf x_2x3 /\ shape x_2x3 = [2; 3] /\ prod_list [3] <> 0 /\
  exists h' lo',
    loss_function_v2 batch_x x_1x2 (x_2x3, x_2x3, [2; 3]) l1_callback 0.2 ∅ =
      (Ok 1%positive, h') /\
    h' !! 1%positive = Some lo' /\
    losses lo' !! "kl" = Some (weighted_kl 0.2 x_2x3 x_2x3) /\
    losses lo' !! "l1" = Some x_1x2.
Proof.
  split; [reflexivity|]. split; [reflexivity|]. split; [discriminate|].
  destruct (loss_function_v2_keeps_components batch_x x_1x2 x_2x3 x_2x3 [2; 3]
              l1_callback 0.2 ∅ 1%positive
              (<[1%positive := {| losses := {[ "l1" := x_1x2 ]} |}]> ∅)
              {| losses := {[ "l1" := x_1x2 ]} |})
    as [Hsame _]; [reflexivity | reflexivity |].
  destruct (Hsame 2 3 []) as (h' & lo' & Hrun & Hl & Hkl & Hother & _);
    [reflexivity | reflexivity | reflexivity | reflexivity | discriminate |].
  exists h', lo'. split; [exact Hrun|]. split; [exact Hl|].
  split; [exact Hkl|]. rewrite Hother by discriminate. reflexivity.
Defined.

(** The claim does not hold for every encoding: with a mean of shape
    [1, 2] and a log-variance of shape [2, 3] the supplied function
    yields a [LossOutput], yet the Kullback-Leibler term cannot be
    computed (the sizes 2 and 3 do not broadcast) and [loss_function_v2]
    raises [RuntimeError] where the claim has it return. *)
Lemma loss_function_v2_raises_on_mismatched_encoding :
  l1_callback batch_x x_1x2 ∅ =
    (Ok (ObjLossOutput 1%positive),
     <[1%positive := {| losses := {[ "l1" := x_1x2 ]} |}]> ∅) /\
  loss_function_v2 batch_x x_1x2 (x_1x2, x_2x3, [2; 3]) l1_callback 0.2 ∅ =
    (Raise RuntimeError, <[1%positive := {| losses := {[ "l1" := x_1x2 ]} |}]> ∅) /\
  ~ (exists l h',
       loss_function_v2 batch_x x_1x2 (x_1x2, x_2x3, [2; 3]) l1_callback 0.2 ∅ =
         (Ok l, h')).
Proof.
  assert (Hr : loss_function_v2 batch_x x_1x2 (x_1x2, x_2x3, [2; 3]) l1_callback 0.2 ∅ =
    (Raise RuntimeError, <[1%positive := {| losses := {[ "l1" := x_1x2 ]} |}]> ∅))
    by reflexivity.
  split; [reflexivity|]. split; [exact Hr|].
  intros (l & h' & Hok). rewrite Hr in Hok. discriminate Hok.
Qed.

(** ** [encode] *)

Lemma length_linear_row l row : layer_wf l -> length (linear_row l row) = out_features l.
Proof. intros [Hw Hb]. unfold linear_row. rewrite length_zip_with. lia. Qed.

Lemma length_concat_map_chunks (f : list R -> list R) c k n d :
  (forall row, length (f row) = c) ->
  length (concat (map f (chunks k n d))) = n * c.
Proof.
  intros Hf. revert d. induction n as [|n IH]; intros d; simpl; [done|].
  by rewrite length_app, Hf, IH.
Qed.

Lemma linear_2d l t n k :
  shape t = [n; k] -> k = in_features l ->
  linear l t =
    Ok {| shape := [n; out_features l];
          data := concat (map (linear_row l) (chunks k n (data t))) |}.
Proof.
  intros Hs ->. unfold linear. rewrite Hs. simpl.
  by rewrite Nat.eqb_refl, Nat.mul_1_r.
Qed.

Lemma linear_2d_mismatch l t n k :
  shape t = [n; k] -> k <> in_features l -> linear l t = Raise RuntimeError.
Proof.
  intros Hs Hne. unfold linear. rewrite Hs. simpl.
  by apply Nat.eqb_neq in Hne as ->.
Qed.

Lemma wf_linear_2d l t n k :
  layer_wf l ->
  wf {| shape := [n; out_features l];
        data := concat (map (linear_row l) (chunks k n (data t))) |}.
Proof.
  intros Hl. unfold wf, numel. simpl.
  rewrite (length_concat_map_chunks _ (out_features l)); [lia|].
  intros row. by apply length_linear_row.
Qed.

Lemma encode_ok st x e n d rest :
  encoder (self st) x = Ok e ->
  shape e = n :: d :: rest ->
  in_features (z_mu (self st)) = prod_list (d :: rest) ->
  in_features (z_logvar (self st)) = prod_list (d :: rest) ->
  exists mu logvar,
    encode x st = (Ok (mu, logvar, n :: d :: rest), st) /\
    shape mu = [n; out_features (z_mu (self st))] /\
    shape logvar = [n; out_features (z_logvar (self st))] /\
    (layer_wf (z_mu (self st)) -> wf mu) /\
    (layer_wf (z_logvar (self st)) -> wf logvar).
Proof.
  intros He Hs Hmu Hlv.
  unfold encode, mbind, se_mbind, se_bind, attr, lift_result. simpl.
  rewrite He. unfold flatten1. rewrite Hs.
  rewrite (linear_2d (z_mu (self st)) _ n (prod_list (d :: rest))) by done.
  rewrite (linear_2d (z_logvar (self st)) _ n (prod_list (d :: rest))) by done.
  do 2 eexists. split; [reflexivity|]. simpl.
  split; [done|]. split; [done|].
  split; intros Hl; by apply wf_linear_2d.
Qed.

(** X1: when the encoder output has a batch dimension and further
    dimensions whose product is the input size of both projections,
    [encode] returns a mean and a log-variance with one row per batch
    entry and as many columns as the projections have outputs, together
    with the shape of the encoder output; the object and the generator
    are left as they were. *)
Theorem encode_returns_rows st x e n d rest :
  encoder (self st) x = Ok e ->
  shape e = n :: d :: rest ->
  in_features (z_mu (self st)) = prod_list (d :: rest) ->
  in_features (z_logvar (self st)) = prod_list (d :: rest) ->
  exists mu logvar,
    encode x st = (Ok (mu, logvar, n :: d :: rest), st) /\
    shape mu = [n; out_features (z_mu (self st))] /\
    shape logvar = [n; out_features (z_logvar (self st))] /\
    (layer_wf (z_mu (self st)) -> wf mu) /\
    (layer_wf (z_logvar (self st)) -> wf logvar).
Proof. apply encode_ok. Qed.

Lemma encode_returns_rows_witness :
  exists mu logvar,
    encode x_2x3 st_2x3 = (Ok (mu, logvar, [2; 3]), st_2x3) /\
    shape mu = [2; 1] /\ shape logvar = [2; 1] /\ wf mu /\ wf logvar.
Proof.
  destruct (encode_returns_rows st_2x3 x_2x3 x_2x3 2 3 [])
    as (mu & logvar & Henc & Hm & Hl & Hwm & Hwl); [reflexivity..|].
  exists mu, logvar. split; [exact Henc|]. split; [exact Hm|]. split; [exact Hl|].
  split; [apply Hwm | apply Hwl]; split; reflexivity.
Defined.

(** X2: [encode] passes on a failure of the encoder, raises [IndexError]
    when the encoder output has fewer than two dimensions, and raises
    [RuntimeError] when the flattened size of the encoder output is not
    the input size of a projection; in each case the object and the
    generator are left as they were. *)
Theorem encode_failures st x :
  (forall err, encoder (self st) x = Raise err -> encode x st = (Raise err, st)) /\
  (forall e, encoder (self st) x = Ok e -> length (shape e) < 2 ->
     encode x st = (Raise IndexError, st)) /\
  (forall e n d rest, encoder (self st) x = Ok e -> shape e = n :: d :: rest ->
     in_features (z_mu (self st)) <> prod_list (d :: rest) \/
     in_features (z_logvar (self st)) <> prod_list (d :: rest) ->
     encode x st = (Raise RuntimeError, st)).
Proof.
  unfold encode, mbind, se_mbind, se_bind, attr, lift_result. simpl.
  split; [|split].
  - by intros err ->.
  - intros e -> Hlen. unfold flatten1.
    destruct (shape e) as [|? [|? ?]]; simpl in *; try done. lia.
  - intros e n d rest -> Hs Hne. unfold flatten1. rewrite Hs.
    destruct (decide (prod_list (d :: rest) = in_features (z_mu (self st)))) as [Heq|Hmu].
    + rewrite (linear_2d (z_mu (self st)) _ n (prod_list (d :: rest))) by done.
      rewrite (linear_2d_mismatch (z_logvar (self st)) _ n (prod_list (d :: rest))); [done..|].
      destruct Hne as [Hne|Hne]; [by destruct Hne | by intros ?].
    + by rewrite (linear_2d_mismatch (z_mu (self st)) _ n (prod_list (d :: rest))).
Qed.

Lemma encode_failures_witness :
  encode x_1x2 (st_with_encoder failing_net) =
    (Raise RuntimeError, st_with_encoder failing_net) /\
  encode x_1x2 (st_with_encoder flat_net) =
    (Raise IndexError, st_with_encoder flat_net) /\
  encode x_2x3 st_1x2 = (Raise RuntimeError, st_1x2).
Proof.
  split; [|split].
  - apply (proj1 (encode_failures (st_with_encoder failing_net) x_1x2)). reflexivity.
  - apply (proj1 (proj2 (encode_failures (st_with_encoder flat_net) x_1x2))
             {| shape := [2]; data := [0; 0]%R |}); [reflexivity | simpl; lia].
  - apply (proj2 (proj2 (encode_failures st_1x2 x_2x3)) x_2x3 2 3 []);
      [reflexivity | reflexivity | left; discriminate].
Defined.

(** ** The constructor *)

Lemma layer_wf_nn_Linear in_f out_f g l g' :
  nn_Linear in_f out_f g = (Ok l, g') ->
  layer_wf l /\ in_features l = in_f /\ out_features l = out_f.
Proof.
  unfold nn_Linear. intros [= <- _]. unfold layer_wf. simpl.
  by rewrite chunks_length, length_draws.
Qed.

Lemma init_built x cnn enc dec z g m g' :
  init x cnn enc dec z g = (Ok m, g') ->
  exists e,
    enc x = Ok e /\ 2 <= length (shape e) /\
    encoder m = enc /\ decoder m = dec /\ z_size m = z /\ training m = true /\
    encoding_shape m = shape e /\
    encoder_output_size m = prod_list (tail (shape e)) /\
    in_features (z_mu m) = prod_list (tail (shape e)) /\
    in_features (z_logvar m) = prod_list (tail (shape e)) /\
    out_features (z_mu m) = z /\ out_features (z_logvar m) = z /\
    layer_wf (z_mu m) /\ layer_wf (z_logvar m).
Proof.
  unfold init, mbind, se_mbind, se_bind, lift_result.
  destruct (enc x) as [e|err]; [|discriminate].
  destruct (shape e) as [|n [|d rest]] eqn:Hs; simpl; try discriminate.
  intros [= <- _]. exists e. rewrite Hs. simpl.
  unfold layer_wf. simpl. rewrite !chunks_length, !length_draws.
  repeat split; try done. lia.
Qed.

(** X3: the constructor returns exactly when the encoder returns on the
    dry-run input with an output of at least two dimensions.  A failure
    of the encoder is passed on; an output with fewer dimensions ends in
    [TypeError], because the product of its empty tail of sizes is not an
    integer size for the projections.  In both failures no parameter has
    been drawn from the generator. *)
Theorem init_returns_iff x cnn enc dec z g :
  (is_ok (fst (init x cnn enc dec z g)) = true <->
     exists e, enc x = Ok e /\ 2 <= length (shape e)) /\
  (forall err, enc x = Raise err -> init x cnn enc dec z g = (Raise err, g)) /\
  (forall e, enc x = Ok e -> length (shape e) < 2 ->
     init x cnn enc dec z g = (Raise TypeError, g)).
Proof.
  unfold init, mbind, se_mbind, se_bind, lift_result.
  destruct (enc x) as [e|err]; simpl.
  - destruct (shape e) as [|n [|d rest]] eqn:Hs; simpl.
    + split; [|split]; [|done|by intros ? [= <-]; rewrite Hs].
      split; [done|]. intros (e' & [= <-] & Hlen). rewrite Hs in Hlen. simpl in Hlen. lia.
    + split; [|split]; [|done|by intros ? [= <-]; rewrite Hs].
      split; [done|]. intros (e' & [= <-] & Hlen). rewrite Hs in Hlen. simpl in Hlen. lia.
    + split; [|split]; [|done|].
      * split; [|done]. intros _. exists e. rewrite Hs. simpl. split; [done|lia].
      * intros ? [= <-]. rewrite Hs. simpl. lia.
  - split; [|split]; [|by intros ? [= <-]|done].
    split; [done|]. by intros (e & ? & _).
Qed.

Lemma init_returns_iff_witness :
  is_ok (fst (init x_1x2 4 identity_net identity_net 2 zero_gen)) = true /\
  init x_1x2 4 failing_net identity_net 2 zero_gen = (Raise RuntimeError, zero_gen) /\
  init x_1x2 4 flat_net identity_net 2 zero_gen = (Raise TypeError, zero_gen).
Proof.
  split; [|split].
  - apply (proj1 (init_returns_iff x_1x2 4 identity_net identity_net 2 zero_gen)).
    exists x_1x2. split; [reflexivity | simpl; lia].
  - apply (proj1 (proj2 (init_returns_iff x_1x2 4 failing_net identity_net 2 zero_gen))).
    reflexivity.
  - apply (proj2 (proj2 (init_returns_iff x_1x2 4 flat_net identity_net 2 zero_gen))
             {| shape := [2]; data := [0; 0]%R |}); [reflexivity | simpl; lia].
Defined.

(** X4: on an object the constructor has built, in either mode and
    whatever the generator holds, [encode] returns for every input whose
    encoder output has the non-batch sizes of the dry run: the mean and
    the log-variance have one row of [z_size] columns per batch entry and
    the third component is the shape of the encoder output.  This holds
    in particular for the dry-run input itself, where that shape is the
    stored encoding shape. *)
Theorem encode_after_init x cnn enc dec z g m g' :
  init x cnn enc dec z g = (Ok m, g') ->
  (forall mode gen0 x' e' n,
      enc x' = Ok e' ->
      shape e' = n :: tail (encoding_shape m) ->
      exists mu logvar,
        encode x' {| self := with_training mode m; gen := gen0 |} =
          (Ok (mu, logvar, shape e'), {| self := with_training mode m; gen := gen0 |}) /\
        shape mu = [n; z] /\ shape logvar = [n; z] /\ wf mu /\ wf logvar) /\
  (forall mode gen0,
      exists mu logvar,
        fst (encode x {| self := with_training mode m; gen := gen0 |}) =
          Ok (mu, logvar, encoding_shape m)).
Proof.
  intros Hinit.
  destruct (init_built _ _ _ _ _ _ _ _ Hinit)
    as (e & He & Hlen & Henc & _ & _ & _ & Hes & _ & Hmi & Hli & Hmo & Hlo & Hmw & Hlw).
  assert (Hrows : forall mode gen0 x' e' n,
      enc x' = Ok e' ->
      shape e' = n :: tail (encoding_shape m) ->
      exists mu logvar,
        encode x' {| self := with_training mode m; gen := gen0 |} =
          (Ok (mu, logvar, shape e'), {| self := with_training mode m; gen := gen0 |}) /\
        shape mu = [n; z] /\ shape logvar = [n; z] /\ wf mu /\ wf logvar).
  { intros mode gen0 x' e' n He' Hs'. rewrite Hes in Hs'.
    destruct (shape e) as [|n0 [|d rest]] eqn:Hs; simpl in Hlen; try lia.
    simpl in Hs'.
    destruct (encode_ok {| self := with_training mode m; gen := gen0 |} x' e' n d rest)
      as (mu & logvar & Hrun & Hm & Hl & Hwm & Hwl); simpl; try done.
    { by rewrite Henc. }
    exists mu, logvar. rewrite Hs'. simpl in *.
    rewrite Hmo in Hm. rewrite Hlo in Hl. repeat split; auto. }
  split; [exact Hrows|].
  intros mode gen0.
  destruct (shape e) as [|n0 [|d rest]] eqn:Hs; simpl in Hlen; try lia.
  destruct (Hrows mode gen0 x e n0) as (mu & logvar & Hrun & _); [done| |].
  { by rewrite Hes, Hs. }
  exists mu, logvar. by rewrite Hrun, Hes, Hs.
Qed.

Lemma encode_after_init_witness :
  init x_2x3 4 identity_net identity_net 1 zero_gen = (Ok vae_2x3, zero_gen) /\
  exists mu logvar,
    fst (encode x_2x3 {| self := with_training false vae_2x3; gen := zero_gen |}) =
      Ok (mu, logvar, [2; 3]) .
Proof.
  split; [reflexivity|].
  destruct (encode_after_init x_2x3 4 identity_net identity_net 1 zero_gen vae_2x3 zero_gen)
    as [_ H]; [reflexivity|].
  exact (H false zero_gen).
Defined.

(** ** [decode] and [sample] on a constructed object *)

Lemma reparameterize_training mu logvar g :
  wf mu -> wf logvar -> shape mu = shape logvar ->
  reparameterize true mu logvar g =
    (Ok (reparameterized mu {| shape := shape mu; data := draws (numel mu) g |} logvar),
     advance (numel mu) g).
Proof.
  intros Hmu Hlv Hs.
  unfold reparameterize, mbind, se_mbind, se_bind, randn_like, randn, lift_result.
  simpl. unfold tensor_mul, tensor_add.
  rewrite binop_same_shape; simpl.
  - rewrite binop_same_shape; simpl.
    + unfold reparameterized, numel. simpl. rewrite <- Hs.
      by rewrite map_map, zip_with_affine.
    + done.
    + unfold wf, numel in *. simpl.
      rewrite length_zip_with, length_draws, !length_map. lia.
    + done.
  - unfold wf, numel. simpl. by rewrite length_draws.
  - by repeat apply wf_tmap.
  - done.
Qed.

Lemma decode_unfold mu logvar s st z g' :
  reparameterize (training (self st)) mu logvar (gen st) = (Ok z, g') ->
  decode mu logvar s st =
    (view z s ≫= decoder (self st), {| self := self st; gen := g' |}).
Proof.
  intros Hz. unfold decode, mbind, se_mbind, se_bind, attr, with_gen, lift_result.
  simpl. rewrite Hz. simpl. by destruct (view z s).
Qed.

(** X5: in evaluation mode [decode] looks neither at the log-variance
    nor at the generator: it hands the mean, viewed under the shape it is
    passed, to the decoder, and it raises [RuntimeError] without calling
    the decoder when that shape does not have the mean's number of
    elements.  The object and the generator are left as they were. *)
Theorem decode_in_evaluation_mode st mu logvar s :
  training (self st) = false ->
  (numel mu = prod_list s ->
     decode mu logvar s st = (decoder (self st) {| shape := s; data := data mu |}, st)) /\
  (numel mu <> prod_list s ->
     decode mu logvar s st = (Raise RuntimeError, st)).
Proof.
  intros Hmode.
  assert (Hd : decode mu logvar s st = (view mu s ≫= decoder (self st), st)).
  { rewrite (decode_unfold mu logvar s st mu (gen st)); [by destruct st|].
    by rewrite Hmode. }
  rewrite Hd. unfold view. split; intros Hn.
  - by rewrite Hn, Nat.eqb_refl.
  - by apply Nat.eqb_neq in Hn as ->.
Qed.

Lemma decode_in_evaluation_mode_witness :
  decode x_1x2 x_2x3 [2; 1] {| self := with_training false vae_2x3; gen := zero_gen |} =
    (Ok {| shape := [2; 1]; data := [0; 0]%R |},
     {| self := with_training false vae_2x3; gen := zero_gen |}) /\
  decode x_1x2 x_2x3 [2; 3] {| self := with_training false vae_2x3; gen := zero_gen |} =
    (Raise RuntimeError, {| self := with_training false vae_2x3; gen := zero_gen |}).
Proof.
  split.
  - apply (decode_in_evaluation_mode
             {| self := with_training false vae_2x3; gen := zero_gen |} x_1x2 x_2x3 [2; 1]);
      reflexivity.
  - apply (decode_in_evaluation_mode
             {| self := with_training false vae_2x3; gen := zero_gen |} x_1x2 x_2x3 [2; 3]);
      [reflexivity | discriminate].
Defined.

(** X6: on an object the constructor has built, [encode] followed by
    [decode] reaches the decoder exactly when the latent size equals the
    flattened size of the encoder output.  If it does, the decoder is
    handed a tensor of the shape of the encoder output, in either mode;
    if it does not, the reshape inside [decode] raises [RuntimeError] for
    every non-empty batch. *)
Theorem encode_decode_after_init x cnn enc dec z g m g' :
  init x cnn enc dec z g = (Ok m, g') ->
  forall mode gen0 x' e' n,
    enc x' = Ok e' ->
    shape e' = n :: tail (encoding_shape m) ->
    let st := {| self := with_training mode m; gen := gen0 |} in
    (z = encoder_output_size m ->
       exists t, shape t = shape e' /\ fst (encode_then_decode x' st) = dec t) /\
    (n <> 0 -> z <> encoder_output_size m ->
       fst (encode_then_decode x' st) = Raise RuntimeError).
Proof.
  intros Hinit mode gen0 x' e' n He' Hs' st.
  destruct (init_built _ _ _ _ _ _ _ _ Hinit)
    as (e & He & Hlen & Henc & Hdec & _ & _ & Hes & Hsize & Hmi & Hli & Hmo & Hlo & Hmw & Hlw).
  rewrite Hes in Hs'.
  destruct (shape e) as [|n0 [|d rest]] eqn:Hs; simpl in Hlen; try lia.
  simpl in Hs', Hsize, Hmi, Hli.
  destruct (encode_ok st x' e' n d rest)
    as (mu & logvar & Hrun & Hm & Hl & Hwm & Hwl); subst st; simpl; try done.
  { by rewrite Henc. }
  simpl in *. rewrite Hmo in Hm. rewrite Hlo in Hl.
  specialize (Hwm Hmw). specialize (Hwl Hlw).
  assert (Hz : exists zt g1,
    reparameterize mode mu logvar gen0 = (Ok zt, g1) /\ numel zt = n * z).
  { destruct mode.
    - do 2 eexists. split; [apply reparameterize_training; congruence|].
      unfold numel, reparameterized. simpl. rewrite Hm. simpl. lia.
    - exists mu, gen0. split; [done|]. unfold numel. rewrite Hm. simpl. lia. }
  destruct Hz as (zt & g1 & Hz & Hnz).
  unfold encode_then_decode, mbind, se_mbind, se_bind. rewrite Hrun, <- Hs'.
  erewrite decode_unfold by (simpl; exact Hz). simpl.
  unfold view. rewrite Hnz, Hs'. simpl. rewrite Hdec. split.
  - intros ->. rewrite Hsize, Nat.eqb_refl. simpl. eexists. split; [|reflexivity]. done.
  - intros Hn Hne. rewrite Hsize in Hne.
    assert (n * z <> n * (d * prod_list rest)) as Hk by nia.
    by apply Nat.eqb_neq in Hk as ->.
Qed.

Lemma encode_decode_after_init_witness :
  init x_2x3 4 identity_net identity_net 1 zero_gen = (Ok vae_2x3, zero_gen) /\
  fst (encode_then_decode x_2x3 {| self := with_training false vae_2x3; gen := zero_gen |}) =
    Raise RuntimeError /\
  init x_1x2 4 identity_net identity_net 2 zero_gen = (Ok (vae_1x2 identity_net), zero_gen) /\
  exists t,
    shape t = [1; 2] /\
    fst (encode_then_decode x_1x2
           {| self := with_training true (vae_1x2 identity_net); gen := zero_gen |}) = Ok t.
Proof.
  split; [reflexivity|]. split.
  - apply (encode_decode_after_init x_2x3 4 identity_net identity_net 1 zero_gen
             vae_2x3 zero_gen eq_refl false zero_gen x_2x3 x_2x3 2);
      [reflexivity | reflexivity | discriminate | discriminate].
  - split; [reflexivity|].
    apply (encode_decode_after_init x_1x2 4 identity_net identity_net 2 zero_gen
             (vae_1x2 identity_net) zero_gen eq_refl true zero_gen x_1x2 x_1x2 1);
      reflexivity.
Defined.

(** X7: [sample] reaches the decoder exactly when [nb_samples * z_size]
    is the number of elements of the stored encoding shape; the decoder
    is then handed the draws under the stored shape, and otherwise the
    reshape raises [RuntimeError].  Either way the generator has moved
    on by [nb_samples * z_size] draws and the object is unchanged. *)
Theorem sample_reaches_decoder_iff nb_samples st :
  let m := self st in
  let k := nb_samples * z_size m in
  let st' := {| self := m; gen := advance k (gen st) |} in
  (k = prod_list (encoding_shape m) ->
     sample nb_samples st =
       (decoder m {| shape := encoding_shape m; data := draws k (gen st) |}, st')) /\
  (k <> prod_list (encoding_shape m) ->
     sample nb_samples st = (Raise RuntimeError, st')).
Proof.
  intros m k st'. rewrite sample_unfold. fold m. simpl.
  rewrite !Nat.mul_1_r. fold k. fold st'. split; intros Hk.
  - by rewrite Hk, Nat.eqb_refl.
  - by apply Nat.eqb_neq in Hk as ->.
Qed.

Lemma sample_reaches_decoder_iff_witness :
  sample 1 st_1x2 = (Ok {| shape := [1; 2]; data := [0; 0]%R |}, st_1x2) /\
  sample 3 st_1x2 = (Raise RuntimeError, st_1x2).
Proof.
  split.
  - apply (sample_reaches_decoder_iff 1 st_1x2). reflexivity.
  - apply (sample_reaches_decoder_iff 3 st_1x2). discriminate.
Defined.

(** X8: on an object built with a latent size equal to the flattened
    size of the encoder output, and that size not zero, [sample] reaches
    the decoder for one value of [nb_samples] only: the batch size of the
    constructor's dry-run input.  Every other value raises
    [RuntimeError]. *)
Theorem sample_after_init x cnn enc dec z g m g' :
  init x cnn enc dec z g = (Ok m, g') ->
  z = encoder_output_size m -> z <> 0 ->
  forall mode gen0 nb_samples,
    let st := {| self := with_training mode m; gen := gen0 |} in
    (nb_samples = hd 0 (encoding_shape m) ->
       fst (sample nb_samples st) =
         dec {| shape := encoding_shape m; data := draws (nb_samples * z) gen0 |}) /\
    (nb_samples <> hd 0 (encoding_shape m) ->
       fst (sample nb_samples st) = Raise RuntimeError).
Proof.
  intros Hinit Hz Hz0 mode gen0 nb st.
  destruct (init_built _ _ _ _ _ _ _ _ Hinit)
    as (e & He & Hlen & _ & Hdec & Hzs & _ & Hes & Hsize & _).
  destruct (shape e) as [|n0 [|d rest]] eqn:Hs; simpl in Hlen; try lia.
  simpl in Hsize.
  destruct (sample_reaches_decoder_iff nb st) as [Hok Hbad].
  subst st. simpl in *. rewrite Hzs, Hes, Hdec in *. simpl in *.
  split.
  - intros ->. rewrite Hok; [done|]. rewrite Hz, Hsize. done.
  - intros Hne. rewrite Hbad; [done|]. rewrite Hz, Hsize in *. nia.
Qed.

Lemma sample_after_init_witness :
  init x_1x2 4 identity_net identity_net 2 zero_gen = (Ok (vae_1x2 identity_net), zero_gen) /\
  fst (sample 1 {| self := with_training true (vae_1x2 identity_net); gen := zero_gen |}) =
    Ok {| shape := [1; 2]; data := [0; 0]%R |} /\
  fst (sample 2 {| self := with_training true (vae_1x2 identity_net); gen := zero_gen |}) =
    Raise RuntimeError.
Proof.
  split; [reflexivity|].
  split.
  - apply (sample_after_init x_1x2 4 identity_net identity_net 2 zero_gen
             (vae_1x2 identity_net) zero_gen eq_refl eq_refl); [discriminate | reflexivity].
  - apply (sample_after_init x_1x2 4 identity_net identity_net 2 zero_gen
             (vae_1x2 identity_net) zero_gen eq_refl eq_refl); discriminate.
Defined.

(** ** Failure modes and components of the losses *)

Lemma named_loss_not_kl F f : named_loss F "kl" = Some f -> False.
Proof. discriminate. Qed.

Lemma named_loss_name_ne_kl F name f : named_loss F name = Some f -> name <> "kl".
Proof. intros H ->. by apply named_loss_not_kl in H. Qed.

(** X10: the failures of [loss_function], in the order in which they
    take effect.  A batch without the input name gives [KeyError],
    whatever the loss name and the encoding are; then a failure of the
    selected library loss is passed on; then a library loss with fewer
    than two dimensions gives [IndexError] in the per-sample reduction;
    and only then does a failure in the Kullback-Leibler term show. *)
Theorem loss_function_failure_order F batch model_output mu logvar s
    x_input_name recon_loss_name w :
  let r := loss_function F batch model_output (mu, logvar, s) x_input_name
             recon_loss_name w in
  (batch !! x_input_name = None -> r = Raise (KeyError x_input_name)) /\
  (forall x f err, batch !! x_input_name = Some x ->
     named_loss F recon_loss_name = Some f ->
     f model_output x = Raise err -> r = Raise err) /\
  (forall x f l, batch !! x_input_name = Some x ->
     named_loss F recon_loss_name = Some f ->
     f model_output x = Ok l -> length (shape l) < 2 -> r = Raise IndexError) /\
  (forall x f l err, batch !! x_input_name = Some x ->
     named_loss F recon_loss_name = Some f ->
     f model_output x = Ok l -> 2 <= length (shape l) ->
     kullback_leibler mu logvar = Raise err -> r = Raise err).
Proof.
  intros r. subst r. unfold loss_function, getitem.
  split; [by intros ->|].
  split; [|split].
  - intros x f err -> Hf Herr. simpl. by rewrite reconstruction_loss_named, Hf, Herr.
  - intros x f l -> Hf Hl Hlen. simpl. rewrite reconstruction_loss_named, Hf, Hl. simpl.
    unfold flatten1. destruct (shape l) as [|? [|? ?]]; simpl in *; try done. lia.
  - intros x f l err -> Hf Hl Hlen Hkl. simpl.
    rewrite reconstruction_loss_named, Hf, Hl. simpl.
    unfold flatten1, mean_dim1. destruct (shape l) as [|? [|? ?]]; simpl in *; try lia.
    by rewrite Hkl.
Qed.

Lemma loss_function_failure_order_witness :
  loss_function echo_losses ∅ x_2x3 (x_1x2, x_2x3, [2; 3]) "x" "huber" 0.2 =
    Raise (KeyError "x") /\
  loss_function size_checked_losses batch_x x_1x2 (x_1x2, x_2x3, [2; 3]) "x" "BCE" 0.2 =
    Raise ValueError /\
  loss_function echo_losses batch_x {| shape := [2]; data := [0; 0]%R |}
    (x_1x2, x_2x3, [2; 3]) "x" "MSE" 0.2 = Raise IndexError /\
  loss_function echo_losses batch_x x_2x3 (x_1x2, x_2x3, [2; 3]) "x" "MSE" 0.2 =
    Raise RuntimeError.
Proof.
  split; [|split; [|split]].
  - apply (loss_function_failure_order echo_losses ∅ x_2x3 x_1x2 x_2x3 [2; 3]
             "x" "huber" 0.2). reflexivity.
  - apply (proj1 (proj2 (loss_function_failure_order size_checked_losses batch_x
             x_1x2 x_1x2 x_2x3 [2; 3] "x" "BCE" 0.2))
             x_2x3 (binary_cross_entropy size_checked_losses) ValueError);
      reflexivity.
  - apply (proj1 (proj2 (proj2 (loss_function_failure_order echo_losses batch_x
             {| shape := [2]; data := [0; 0]%R |} x_1x2 x_2x3 [2; 3] "x" "MSE" 0.2)))
             x_2x3 (fun a _ => Ok a) {| shape := [2]; data := [0; 0]%R |});
      [reflexivity | reflexivity | reflexivity | simpl; lia].
  - apply (proj2 (proj2 (proj2 (loss_function_failure_order echo_losses batch_x
             x_2x3 x_1x2 x_2x3 [2; 3] "x" "MSE" 0.2)))
             x_2x3 (fun a _ => Ok a) x_2x3 RuntimeError);
      [reflexivity | reflexivity | reflexivity | simpl; lia | reflexivity].
Defined.

(** X11: when [loss_function] returns, its result has exactly two
    components: the one under the loss name is the library loss reduced
    to one number per batch sample, the mean over that sample's elements,
    and the one under 'kl' is the weighted Kullback-Leibler term. *)
Theorem loss_function_components F batch model_output mu logvar s
    x_input_name recon_loss_name w x f l n d rest kl :
  batch !! x_input_name = Some x ->
  named_loss F recon_loss_name = Some f ->
  f model_output x = Ok l ->
  shape l = n :: d :: rest -> wf l ->
  kullback_leibler mu logvar = Ok kl ->
  exists lo,
    loss_function F batch model_output (mu, logvar, s) x_input_name recon_loss_name w =
      Ok lo /\
    dom (losses lo) = {[ recon_loss_name; "kl" ]} /\
    size (losses lo) = 2 /\
    losses lo !! recon_loss_name =
      Some {| shape := [n];
              data := map mean_R (chunks (prod_list (d :: rest)) n (data l)) |} /\
    losses lo !! "kl" = Some (mul_scalar kl w).
Proof.
  intros Hx Hf Hl Hs Hwf Hkl.
  pose proof (named_loss_name_ne_kl F recon_loss_name f Hf) as Hne.
  eexists. split.
  { apply loss_function_returns with (x := x); [done| |done].
    rewrite reconstruction_loss_named, Hf, Hl. simpl. unfold flatten1. rewrite Hs. simpl.
    apply (mean_dim1_rows _ n (prod_list (d :: rest))); [done|].
    unfold wf, numel in Hwf. by rewrite Hs in Hwf. }
  simpl. split; [|split; [|split]].
  - rewrite !dom_insert_L, dom_empty_L, union_empty_r_L. apply (comm_L (∪)).
  - rewrite map_size_insert_None, map_size_insert_None, map_size_empty; [done|done|].
    by rewrite lookup_insert_ne.
  - by rewrite lookup_insert_ne, lookup_insert_eq.
  - by rewrite lookup_insert_eq.
Qed.

Lemma loss_function_components_witness :
  exists kl lo,
    kullback_leibler x_2x3 x_2x3 = Ok kl /\
    loss_function echo_losses batch_x x_2x3 (x_2x3, x_2x3, [2; 3]) "x" "MSE" 0.2 = Ok lo /\
    size (losses lo) = 2 /\
    shape <$> losses lo !! "MSE" = Some [2].
Proof.
  assert (Hk : exists kl, kullback_leibler x_2x3 x_2x3 = Ok kl)
    by (eexists; reflexivity).
  destruct Hk as [kl Hk]. exists kl.
  destruct (loss_function_components echo_losses batch_x x_2x3 x_2x3 x_2x3 [2; 3]
              "x" "MSE" 0.2 x_2x3 (fun a _ => Ok a) x_2x3 2 3 [] kl)
    as (lo & Hrun & _ & Hsize & Hrec & _);
    [reflexivity | reflexivity | reflexivity | reflexivity | reflexivity | exact Hk |].
  exists lo. split; [exact Hk|]. split; [exact Hrun|]. split; [exact Hsize|].
  rewrite Hrec. reflexivity.
Defined.

(** X12: when [loss_function_v2] raises, the heap is the one the
    supplied function left behind: no component has been written.  It
    raises what the supplied function raises, [AssertionError] when the
    supplied function yields something else than a [LossOutput], and
    what the Kullback-Leibler computation raises. *)
Theorem loss_function_v2_failures batch model_output mu logvar s recon_loss_fn w h :
  let r := loss_function_v2 batch model_output (mu, logvar, s) recon_loss_fn w h in
  (forall err h', r = (Raise err, h') -> h' = snd (recon_loss_fn batch model_output h)) /\
  (forall err h1, recon_loss_fn batch model_output h = (Raise err, h1) ->
     r = (Raise err, h1)) /\
  (forall t h1, recon_loss_fn batch model_output h = (Ok (ObjTensor t), h1) ->
     r = (Raise (AssertionError None), h1)) /\
  (forall l h1 err, recon_loss_fn batch model_output h = (Ok (ObjLossOutput l), h1) ->
     is_Some (h1 !! l) -> kullback_leibler mu logvar = Raise err ->
     r = (Raise err, h1)).
Proof.
  intros r. subst r.
  unfold loss_function_v2, mbind, se_mbind, se_bind, assert_LossOutput,
    setitem_losses, lift_result.
  split; [|split; [|split]].
  - intros err h'.
    destruct (recon_loss_fn batch model_output h) as [[[t|l]|e] h1]; simpl.
    + by intros [= _ <-].
    + destruct (bool_decide (is_Some (h1 !! l))); [|by intros [= _ <-]].
      destruct (kullback_leibler mu logvar); [done|by intros [= _ <-]].
    + by intros [= _ <-].
  - by intros err h1 ->.
  - by intros t h1 ->.
  - intros l h1 err -> Hl Hkl. by rewrite bool_decide_eq_true_2, Hkl.
Qed.

Lemma loss_function_v2_failures_witness :
  loss_function_v2 batch_x x_1x2 (x_1x2, x_2x3, [2; 3]) l1_callback 0.2 ∅ =
    (Raise RuntimeError, <[1%positive := {| losses := {[ "l1" := x_1x2 ]} |}]> ∅) /\
  loss_function_v2 batch_x x_1x2 (x_2x3, x_2x3, [2; 3])
    (fun _ out h => (Ok (ObjTensor out), h)) 0.2 ∅ = (Raise (AssertionError None), ∅).
Proof.
  split.
  - apply (proj2 (proj2 (proj2 (loss_function_v2_failures batch_x x_1x2 x_1x2 x_2x3
             [2; 3] l1_callback 0.2 ∅))) 1%positive); [reflexivity | | reflexivity].
    exists {| losses := {[ "l1" := x_1x2 ]} |}. reflexivity.
  - apply (proj1 (proj2 (proj2 (loss_function_v2_failures batch_x x_1x2 x_2x3 x_2x3
             [2; 3] (fun _ out h => (Ok (ObjTensor out), h)) 0.2 ∅))) x_1x2).
    reflexivity.
Defined.

(** X13: [loss_function_v2] extends [loss_function]: when the supplied
    function allocates a [LossOutput] holding, under the loss name, the
    reconstruction component [loss_function] computes, the object
    [loss_function_v2] returns is equal to the result of
    [loss_function]. *)
Theorem loss_function_v2_extends_loss_function F batch model_output mu logvar s
    x_input_name recon_loss_name w lo r recon_loss_fn h l :
  loss_function F batch model_output (mu, logvar, s) x_input_name recon_loss_name w =
    Ok lo ->
  losses lo !! recon_loss_name = Some r ->
  recon_loss_fn batch model_output h =
    (Ok (ObjLossOutput l), <[l := {| losses := {[ recon_loss_name := r ]} |}]> h) ->
  loss_function_v2 batch model_output (mu, logvar, s) recon_loss_fn w h =
    (Ok l, <[l := lo]> h).
Proof.
  intros Hv1 Hr Hfn.
  destruct (loss_function_kl _ _ _ _ _ _ _ _ _ _ Hv1) as (kl & Hkl & _).
  erewrite loss_function_v2_returns;
    [|exact Hfn|by rewrite lookup_insert_eq|exact Hkl].
  rewrite insert_insert_eq. do 2 f_equal.
  revert Hv1 Hr. unfold loss_function.
  destruct (getitem _ _) as [x|]; [simpl|done].
  destruct (reconstruction_loss _ _ _ _) as [r0|] eqn:Hrec; [simpl|done].
  destruct (flatten1 r0) as [r1|]; [simpl|done].
  destruct (mean_dim1 r1) as [r2|]; [simpl|done].
  rewrite Hkl. simpl. intros [= <-]. simpl.
  assert (Hne : recon_loss_name <> "kl").
  { rewrite reconstruction_loss_named in Hrec.
    destruct (named_loss F recon_loss_name) as [f|] eqn:Hf; [|done].
    by apply named_loss_name_ne_kl in Hf. }
  rewrite lookup_insert_ne, lookup_insert_eq by done. intros [= ->].
  by rewrite insert_empty.
Qed.

Lemma loss_function_v2_extends_loss_function_witness :
  exists lo,
    loss_function echo_losses batch_x x_2x3 (x_2x3, x_2x3, [2; 3]) "x" "MSE" 0.2 = Ok lo /\
    loss_function_v2 batch_x x_2x3 (x_2x3, x_2x3, [2; 3])
      (reduced_callback echo_losses "x" "MSE" 1%positive) 0.2 ∅ =
      (Ok 1%positive, <[1%positive := lo]> ∅).
Proof.
  eexists. split; [reflexivity|].
  eapply (loss_function_v2_extends_loss_function echo_losses batch_x x_2x3 x_2x3 x_2x3
            [2; 3] "x" "MSE" 0.2); reflexivity.
Defined.

(** ** Conditioned diffusion wrapper: what the assertions leave open *)

Lemma cat1_rows (a b : list R) ka kb n i :
  length a = n * ka -> length b = n * kb -> i < n ->
  take (ka + kb) (drop (i * (ka + kb)) (concat (zip_with app (chunks ka n a) (chunks kb n b)))) =
  take ka (drop (i * ka) a) ++ take kb (drop (i * kb) b).
Proof.
  revert a b i. induction n as [|n IH]; intros a b i Ha Hb Hi; [lia|].
  simpl chunks. simpl zip_with. simpl concat.
  assert (Hla : length (take ka a) = ka) by (rewrite length_take; lia).
  assert (Hlb : length (take kb b) = kb) by (rewrite length_take; lia).
  destruct i as [|i].
  - rewrite !Nat.mul_0_l, !drop_0, take_app_length'; [done|]. rewrite length_app. lia.
  - replace (S i * (ka + kb)) with (length (take ka a ++ take kb b) + i * (ka + kb))
      by (rewrite length_app; lia).
    rewrite <- drop_drop, drop_app_length.
    rewrite IH; [|try rewrite length_drop; lia..].
    rewrite !drop_drop. f_equal; f_equal; f_equal; lia.
Qed.

Lemma length_cat1_data (a b : list R) ka kb n :
  length a = n * ka -> length b = n * kb ->
  length (concat (zip_with app (chunks ka n a) (chunks kb n b))) = n * (ka + kb).
Proof.
  revert a b. induction n as [|n IH]; intros a b Ha Hb; [done|].
  simpl. rewrite !length_app, !length_take, IH; [|rewrite length_drop; lia..]. lia.
Qed.

(** X14: the wrapper's assertions compare the sizes from index 2 on
    only.  When they agree but the batch sizes differ, or when [x] has a
    single dimension, the assertions pass and the concatenation raises
    ([RuntimeError] and [IndexError]); the base network is not called. *)
Theorem conditioned_forward_unasserted (m : DiffusionModelUNetConditioned.t)
    (x t c : Tensor) (kwargs : gmap string (option Tensor)) :
  kwargs !! DiffusionModelUNetConditioned.image_conditioning_name m = Some (Some c) ->
  (forall n n' cx cc rest,
      shape x = n :: cx :: rest -> shape c = n' :: cc :: rest -> n <> n' ->
      DiffusionModelUNetConditioned.forward m x t kwargs = Raise RuntimeError) /\
  (length (shape x) = 1 -> shape x <> [0] -> 1 <= length (shape c) <= 2 ->
      DiffusionModelUNetConditioned.forward m x t kwargs = Raise IndexError).
Proof.
  intros Hc.
  unfold DiffusionModelUNetConditioned.forward, DiffusionModelUNetConditioned.kwargs_get.
  rewrite Hc. simpl. unfold shape_eqb. split.
  - intros n n' cx cc rest Hx Hs Hne. rewrite Hx, Hs. simpl.
    rewrite bool_decide_eq_true_2 by done. simpl.
    unfold cat1, is_legacy_empty, shape_eqb. rewrite Hx, Hs.
    rewrite !bool_decide_eq_false_2 by done.
    by apply Nat.eqb_neq in Hne as ->.
  - intros Hx Hx0 Hlen.
    assert (Hd : drop 2 (shape c) = drop 2 (shape x)).
    { rewrite !drop_ge by lia. done. }
    rewrite bool_decide_eq_true_2 by done. simpl.
    unfold cat1, is_legacy_empty, shape_eqb, check_dim1.
    rewrite (bool_decide_eq_false_2 (shape x = [0])) by done.
    destruct (shape x) as [|? [|? ?]]; simpl in Hx; try lia;
      by destruct (bool_decide (shape c = [0])); try destruct (shape c) as [|? [|? ?]].
Qed.

Lemma conditioned_forward_unasserted_witness :
  DiffusionModelUNetConditioned.forward echo_wrapper x_2x3 x_2x3
    {[ "images" := Some x_1x2 ]} = Raise RuntimeError /\
  DiffusionModelUNetConditioned.forward echo_wrapper
    {| shape := [2]; data := [0; 0]%R |} x_2x3 {[ "images" := Some x_1x2 ]} =
    Raise IndexError.
Proof.
  split.
  - destruct (conditioned_forward_unasserted echo_wrapper x_2x3 x_2x3 x_1x2
                {[ "images" := Some x_1x2 ]}) as [H _]; [reflexivity|].
    apply (H 2 1 3 2 []); [reflexivity | reflexivity | discriminate].
  - destruct (conditioned_forward_unasserted echo_wrapper
                {| shape := [2]; data := [0; 0]%R |} x_2x3 x_1x2
                {[ "images" := Some x_1x2 ]}) as [_ H]; [reflexivity|].
    apply H; [simpl; lia | discriminate | simpl; lia].
Defined.

(** X15: for an input and a conditioning tensor that fill their shapes
    and agree in batch and spatial sizes, the tensor handed to the base
    network fills its shape, and each of its batch samples is the sample
    of the input followed by the sample of the conditioning tensor. *)
Theorem conditioned_forward_layout (m : DiffusionModelUNetConditioned.t)
    (x t c : Tensor) (kwargs : gmap string (option Tensor)) n cx cc rest :
  kwargs !! DiffusionModelUNetConditioned.image_conditioning_name m = Some (Some c) ->
  wf x -> wf c ->
  shape x = n :: cx :: rest -> shape c = n :: cc :: rest ->
  exists x_cond,
    DiffusionModelUNetConditioned.forward m x t kwargs =
      DiffusionModelUNetConditioned.base_model m x_cond t /\
    shape x_cond = n :: (cx + cc) :: rest /\
    wf x_cond /\
    forall i, i < n -> sample_row x_cond i = sample_row x i ++ sample_row c i.
Proof.
  intros Hc Hwx Hwc Hx Hs.
  unfold DiffusionModelUNetConditioned.forward, DiffusionModelUNetConditioned.kwargs_get.
  rewrite Hc. simpl. unfold shape_eqb. rewrite Hx, Hs. simpl.
  rewrite bool_decide_eq_true_2 by done.
  rewrite (cat1_regular x c n cx cc rest) by done. simpl.
  eexists. split; [reflexivity|]. split; [reflexivity|].
  unfold wf, numel in *. rewrite Hx in Hwx. rewrite Hs in Hwc.
  change (prod_list (n :: cx :: rest)) with (n * (cx * prod_list rest)) in Hwx.
  change (prod_list (n :: cc :: rest)) with (n * (cc * prod_list rest)) in Hwc.
  split.
  - simpl shape. simpl data.
    change (prod_list (n :: cx + cc :: rest)) with (n * ((cx + cc) * prod_list rest)).
    rewrite length_cat1_data by done. lia.
  - intros i Hi. unfold sample_row. simpl shape. simpl data. rewrite Hx, Hs.
    change (prod_list (tail (n :: cx + cc :: rest))) with ((cx + cc) * prod_list rest).
    change (prod_list (tail (n :: cx :: rest))) with (cx * prod_list rest).
    change (prod_list (tail (n :: cc :: rest))) with (cc * prod_list rest).
    rewrite Nat.mul_add_distr_r. by apply cat1_rows.
Qed.

Lemma conditioned_forward_layout_witness :
  wf img_2x2 /\
  exists x_cond,
    DiffusionModelUNetConditioned.forward echo_wrapper img_2x2 img_2x2
      {[ "images" := Some img_2x2 ]} = Ok x_cond /\
    shape x_cond = [1; 2; 2; 2] /\ wf x_cond.
Proof.
  split; [reflexivity|].
  destruct (conditioned_forward_layout echo_wrapper img_2x2 img_2x2 img_2x2
              {[ "images" := Some img_2x2 ]} 1 1 1 [2; 2])
    as (x_cond & Hrun & Hshape & Hwf & _); [reflexivity..|].
  exists x_cond. split; [exact Hrun|]. split; [exact Hshape | exact Hwf].
Defined.

(** ** The training script *)

Lemma add_noise_ok t g :
  wf t ->
  add_noise t g =
    (Ok {| shape := shape t; data := zip_with Rplus (data t) (draws (numel t) g) |},
     advance (numel t) g).
Proof.
  intros Hwf. unfold add_noise, mbind, se_mbind, se_bind, randn_like, randn, lift_result.
  unfold tensor_add. rewrite binop_same_shape; [done|done| |done].
  unfold wf, numel. simpl. by rewrite length_draws.
Qed.

(** X16: the noising transform of the script never raises on a tensor
    that fills its shape: it returns a tensor of the same shape, filling
    it, whose elements are those of the input plus one draw each, and
    takes as many draws from the generator as the input has elements. *)
Theorem add_noise_keeps_shape t g :
  wf t ->
  exists noisy,
    add_noise t g = (Ok noisy, advance (numel t) g) /\
    shape noisy = shape t /\ wf noisy /\
    forall i v, data t !! i = Some v ->
      data noisy !! i = Some (v + g i)%R.
Proof.
  intros Hwf. rewrite add_noise_ok by done. eexists. split; [reflexivity|].
  simpl. split; [done|]. split.
  - unfold wf, numel in *. simpl. rewrite length_zip_with, length_draws. lia.
  - intros i v Hi. rewrite lookup_zip_with, Hi. simpl.
    unfold draws.
    assert (Hlt : i < numel t).
    { apply lookup_lt_Some in Hi. unfold wf in Hwf. lia. }
    change (map g (seq 0 (numel t))) with (g <$> seq 0 (numel t)).
    by rewrite list_lookup_fmap, lookup_seq_lt.
Qed.

Lemma add_noise_keeps_shape_witness :
  wf img_2x2 /\
  exists noisy,
    add_noise img_2x2 zero_gen = (Ok noisy, zero_gen) /\ shape noisy = [1; 1; 2; 2].
Proof.
  split; [reflexivity|].
  destruct (add_noise_keeps_shape img_2x2 zero_gen) as (noisy & Hrun & Hs & _);
    [reflexivity|].
  exists noisy. split; [exact Hrun | exact Hs].
Defined.

(** X17: the data flow of the script.  For a batch of one-channel
    images, the noised images have the shape of the images, so that the
    wrapper conditioned on 'images' passes its assertions for them and
    hands the base network a tensor with two channels, the number of
    input channels the script configures for it. *)
Theorem script_conditioning_has_two_channels
    (base : Tensor -> Tensor -> result Tensor) (images t : Tensor)
    (kwargs : gmap string (option Tensor)) (g : rng) n h w :
  wf images ->
  shape images = [n; 1; h; w] ->
  kwargs !! "images" = Some (Some images) ->
  exists noisy g' x_cond,
    add_noise images g = (Ok noisy, g') /\
    shape x_cond = [n; 2; h; w] /\
    DiffusionModelUNetConditioned.forward
      (DiffusionModelUNetConditioned.mk base "images") noisy t kwargs = base x_cond t.
Proof.
  intros Hwf Hs Hk. rewrite add_noise_ok by done.
  set (noisy := {| shape := shape images;
                   data := zip_with Rplus (data images) (draws (numel images) g) |}).
  exists noisy, (advance (numel images) g),
    {| shape := [n; 1 + 1; h; w];
       data := concat (zip_with app (chunks (1 * prod_list [h; w]) n (data noisy))
                                    (chunks (1 * prod_list [h; w]) n (data images))) |}.
  split; [reflexivity|]. split; [reflexivity|].
  unfold DiffusionModelUNetConditioned.forward, DiffusionModelUNetConditioned.kwargs_get.
  simpl. rewrite Hk. simpl. unfold shape_eqb. rewrite Hs. simpl drop.
  rewrite bool_decide_eq_true_2 by done.
  by rewrite (cat1_regular noisy images n 1 1 [h; w]).
Qed.

Lemma script_conditioning_has_two_channels_witness :
  wf img_2x2 /\
  exists noisy g' x_cond,
    add_noise img_2x2 zero_gen = (Ok noisy, g') /\
    shape x_cond = [1; 2; 2; 2] /\
    DiffusionModelUNetConditioned.forward echo_wrapper noisy img_2x2
      {[ "images" := Some img_2x2 ]} = Ok x_cond.
Proof.
  split; [reflexivity|].
  destruct (script_conditioning_has_two_channels (fun x _ => Ok x) img_2x2 img_2x2
              {[ "images" := Some img_2x2 ]} zero_gen 1 2 2)
    as (noisy & g' & x_cond & Hrun & Hs & Hfw); [reflexivity..|].
  exists noisy, g', x_cond. split; [exact Hrun|]. split; [exact Hs | exact Hfw].
Defined.

(** ** [reparameterize] on shapes that do not fit *)

Lemma broadcast_shapes_columns n a b :
  a <> b -> a <> 1 -> b <> 1 -> broadcast_shapes [n; a] [n; b] = None.
Proof.
  intros Hab Ha Hb. unfold broadcast_shapes. simpl.
  apply Nat.eqb_neq in Hab as ->. apply Nat.eqb_neq in Ha as ->.
  by apply Nat.eqb_neq in Hb as ->.
Qed.

(** X18: when the mean has [a] columns and the log-variance [b]
    columns, with [a] and [b] different and neither equal to 1, training
    mode raises [RuntimeError] after having drawn the noise, so the
    generator has moved on; evaluation mode returns the mean and leaves
    the generator alone. *)
Theorem reparameterize_column_mismatch mu logvar g n a b :
  wf logvar ->
  shape mu = [n; a] -> shape logvar = [n; b] ->
  a <> b -> a <> 1 -> b <> 1 ->
  reparameterize true mu logvar g = (Raise RuntimeError, advance (n * b) g) /\
  reparameterize false mu logvar g = (Ok mu, g).
Proof.
  intros Hlv Hm Hl Hab Ha Hb. split; [|done].
  unfold reparameterize, mbind, se_mbind, se_bind, randn_like, randn, lift_result.
  simpl. unfold tensor_mul, tensor_add.
  rewrite binop_same_shape; simpl.
  - unfold binop. simpl. rewrite Hm, Hl, broadcast_shapes_columns by done.
    simpl. by rewrite Nat.mul_1_r.
  - unfold wf, numel. simpl. by rewrite length_draws.
  - by repeat apply wf_tmap.
  - done.
Qed.

Lemma reparameterize_column_mismatch_witness :
  wf x_2x3 /\
  reparameterize true {| shape := [2; 2]; data := [0; 0; 0; 0]%R |} x_2x3 zero_gen =
    (Raise RuntimeError, zero_gen) /\
  reparameterize false {| shape := [2; 2]; data := [0; 0; 0; 0]%R |} x_2x3 zero_gen =
    (Ok {| shape := [2; 2]; data := [0; 0; 0; 0]%R |}, zero_gen).
Proof.
  split; [reflexivity|].
  apply (reparameterize_column_mismatch {| shape := [2; 2]; data := [0; 0; 0; 0]%R |}
           x_2x3 zero_gen 2 2 3); [reflexivity | reflexivity | reflexivity | lia..].
Defined.
